(** * PinMyPic face-recognition service: the request-processing core

    A shallow embedding of [server/face-recognition]:
    - [gpu_similarity.py]: backend selection and batched cosine similarity
      ([Module GpuSimilarity]);
    - [app.py]: the [/process-photo] admission path, the queue worker and
      the [/compare-faces] endpoint ([Module App]);
    - [dynamic_batch_processor.py]: the dynamic batch scheduler
      ([Module DynamicBatch]);
    - [run-with-gpu.py]: the environment that the runner sets up
      ([Module RunWithGpu]).

    External collaborators (CuPy, PyTorch, OpenCV, the HTTP client, the
    face model) are oracles: every call either raises or returns. *)

From Stdlib Require Import PrimFloat SpecFloat FloatOps FloatAxioms.
From Stdlib Require Import List String Ascii Permutation Sorted.
From stdpp Require Import gmap strings list fin_maps.

Set Default Proof Using "Type".

(** ** Python values shared by the three files *)

(** A raised exception: its class and [str(e)]. *)
Record exn := Exception { exn_class : string; exn_str : string }.

(** The outcome of evaluating a Python expression. *)
Definition PyResult (A : Type) : Type := exn + A.

Definition raise {A} (cls msg : string) : PyResult A := inl (Exception cls msg).

Definition py_bind {A B} (r : PyResult A) (k : A → PyResult B) : PyResult B :=
  match r with
  | inl e => inl e
  | inr a => k a
  end.

Notation "'let*' x ':=' r 'in' k" := (py_bind r (λ x, k))
  (at level 10, x name, r at level 100, k at level 200).

Definition raises {A} (r : PyResult A) : Prop := ∃ e, r = inl e.
Definition returns {A} (r : PyResult A) : Prop := ∃ a, r = inr a.

(** ** gpu_similarity.py *)

Module GpuSimilarity.

(** The element type of an array with the operations the module applies to
    it. numpy decides the dtype (float64 for arrays built from Python
    floats, float32 after [astype]); the code is the same for each. *)
Class Scalar (F : Type) := {
  f0 : F;
  fadd : F → F → F;
  fmul : F → F → F;
  fdiv : F → F → F;
  fsqrt : F → F;
  fltb : F → F → bool
}.

(** IEEE binary64, numpy's default [float64]: runs the code on concrete
    arrays. *)
#[export] Instance binary64 : Scalar float := {
  f0 := 0%float;
  fadd := PrimFloat.add;
  fmul := PrimFloat.mul;
  fdiv := PrimFloat.div;
  fsqrt := PrimFloat.sqrt;
  fltb := PrimFloat.ltb
}.

Section Numpy.
Context {F : Type} `{Scalar F}.

(** [np.ndarray] as the module meets it: one axis ([shape (n,)]) or two
    ([shape (len rows, ncols)]). The column count is kept because an array
    of shape [(0, D)] has no row to read it from. *)
Inductive ndarray :=
| Arr1 (v : list F)
| Arr2 (ncols : nat) (rows : list (list F)).

(** Every row of a two-axis array has [ncols] entries. *)
Definition wf_ndarray (a : ndarray) : Prop :=
  match a with
  | Arr1 _ => True
  | Arr2 d rows => Forall (λ r, length r = d) rows
  end.

(** [len(a)]: the extent of the first axis. *)
Definition py_len (a : ndarray) : nat :=
  match a with
  | Arr1 v => length v
  | Arr2 _ rows => length rows
  end.

(** [np.zeros(n)] *)
Definition np_zeros (n : nat) : list F := replicate n f0.

(** [np.add.reduce] over one axis. *)
Definition np_sum (v : list F) : F := fold_left fadd v f0.

(** The inner product of two one-axis arrays. *)
Definition vdot (a b : list F) : F := np_sum (zip_with fmul a b).

(** [np.linalg.norm(x)] for a one-axis [x]: [sqrt(x.dot(x))]. *)
Definition np_linalg_norm (x : list F) : F := fsqrt (vdot x x).

(** The norm of one row as [norm(..., axis=1)] computes it:
    [sqrt(add.reduce(x * x))]. *)
Definition row_norm (r : list F) : F := fsqrt (np_sum (map (λ x, fmul x x) r)).

(** [np.linalg.norm(a, axis=1)]: an array with one axis has no axis 1. *)
Definition np_linalg_norm_axis1 (a : ndarray) : PyResult (list F) :=
  match a with
  | Arr1 _ => raise "AxisError" "axis 1 is out of bounds for array of dimension 1"
  | Arr2 _ rows => inr (map row_norm rows)
  end.

(** [a.T] *)
Definition T (a : ndarray) : ndarray :=
  match a with
  | Arr1 v => Arr1 v
  | Arr2 d rows => Arr2 (length rows) (map (λ j, map (λ r, nth j r f0) rows) (seq 0 d))
  end.

(** What [np.dot] of a one-axis array with another array is: a scalar
    against one axis, a one-axis array against two. *)
Inductive dot_value :=
| DScalar (x : F)
| DVec (v : list F).

(** [np.dot(a, b)] for a one-axis [a]: the sum runs over [a] and the first
    axis of [b], whose extents must agree. *)
Definition np_dot (a : list F) (b : ndarray) : PyResult dot_value :=
  match b with
  | Arr1 v =>
      if decide (length a = length v) then inr (DScalar (vdot a v))
      else raise "ValueError" "shapes not aligned"
  | Arr2 n cols =>
      if decide (length a = length cols)
      then inr (DVec (map (λ j, vdot a (map (λ c, nth j c f0) cols)) (seq 0 n)))
      else raise "ValueError" "shapes not aligned"
  end.

(** [s * v] for a scalar [s]. *)
Definition np_scale (s : F) (v : list F) : list F := map (fmul s) v.

(** [x / y] with broadcasting against the one-axis [y]. Division by zero
    is a warning in numpy, never an exception. *)
Definition np_true_divide (x : dot_value) (y : list F) : PyResult (list F) :=
  match x with
  | DScalar s => inr (map (fdiv s) y)
  | DVec v =>
      if decide (length v = length y) then inr (zip_with fdiv v y)
      else if decide (length v = 1) then inr (map (fdiv (nth 0 v f0)) y)
      else if decide (length y = 1) then inr (map (λ a, fdiv a (nth 0 y f0)) v)
      else raise "ValueError" "operands could not be broadcast together"
  end.

(** The [try] block of [_numpy_cosine_similarity]. *)
Definition numpy_try (query_embedding : list F) (stored_embeddings : ndarray)
  : PyResult (list F) :=
  let query_norm := np_linalg_norm query_embedding in
  let* stored_norms := np_linalg_norm_axis1 stored_embeddings in
  let* dot_products := np_dot query_embedding (T stored_embeddings) in
  np_true_divide dot_products (np_scale query_norm stored_norms).

(** [GPUSimilarityCalculator._numpy_cosine_similarity] *)
Definition _numpy_cosine_similarity (query_embedding : list F)
    (stored_embeddings : ndarray) : PyResult (list F) :=
  match numpy_try query_embedding stored_embeddings with
  | inr similarities => inr similarities
  | inl _ => inr (np_zeros (py_len stored_embeddings))
  end.

End Numpy.

Arguments ndarray F : clear implicits.
Arguments dot_value F : clear implicits.

(** *** Backend selection and dispatch *)

(** [self.device]: one of the strings "cupy", "torch", "numpy". *)
Inductive device_name := cupy | torch | numpy.

#[export] Instance device_name_eq_dec : EqDecision device_name.
Proof. solve_decision. Defined.

(** The two places where the constructor calls [torch.cuda.is_available()]. *)
Inductive probe_site := in_check_gpu_availability | in_get_best_device.

(** What the module finds installed, and how the accelerator libraries
    answer. [cupy_try n] and [torch_try n] are the [try] blocks of
    [_cupy_cosine_similarity] and [_torch_cosine_similarity] in the [n]-th
    call of the process: library code that returns scores or raises. *)
Record Runtime (F : Type) := {
  CUPY_AVAILABLE : bool;
  TORCH_AVAILABLE : bool;
  cupy_norm_test : PyResult unit;
  torch_cuda_is_available : probe_site → PyResult bool;
  cupy_try : nat → list F → ndarray F → PyResult (list F);
  torch_try : nat → list F → ndarray F → PyResult (list F)
}.

Arguments CUPY_AVAILABLE {F} _.
Arguments TORCH_AVAILABLE {F} _.
Arguments cupy_norm_test {F} _.
Arguments torch_cuda_is_available {F} _ _.
Arguments cupy_try {F} _ _ _ _.
Arguments torch_try {F} _ _ _ _.

(** The attributes of a [GPUSimilarityCalculator]. *)
Record calculator := { gpu_available : bool; device : device_name }.

Section Calculator.
Context {F : Type} `{Scalar F}.
Variable rt : Runtime F.

(** [GPUSimilarityCalculator._check_gpu_availability] *)
Definition _check_gpu_availability : bool :=
  if CUPY_AVAILABLE rt then
    match cupy_norm_test rt with
    | inr _ => true
    | inl _ => false
    end
  else if TORCH_AVAILABLE rt then
    match torch_cuda_is_available rt in_check_gpu_availability with
    | inr b => b
    | inl _ => false
    end
  else false.

(** [GPUSimilarityCalculator._get_best_device]; [and] evaluates its right
    operand only when the left one is true. *)
Definition _get_best_device (self_gpu_available : bool) : PyResult device_name :=
  if CUPY_AVAILABLE rt && self_gpu_available then inr cupy
  else if TORCH_AVAILABLE rt then
    let* cuda := torch_cuda_is_available rt in_get_best_device in
    if (cuda : bool) then inr torch else inr numpy
  else inr numpy.

(** [GPUSimilarityCalculator.__init__] *)
Definition __init__ : PyResult calculator :=
  let gpu := _check_gpu_availability in
  let* dev := _get_best_device gpu in
  inr {| gpu_available := gpu; device := dev |}.

(** [GPUSimilarityCalculator._cupy_cosine_similarity] in call [n]. *)
Definition _cupy_cosine_similarity (n : nat) (query_embedding : list F)
    (stored_embeddings : ndarray F) : PyResult (list F) :=
  match cupy_try rt n query_embedding stored_embeddings with
  | inr similarities => inr similarities
  | inl _ => _numpy_cosine_similarity query_embedding stored_embeddings
  end.

(** [GPUSimilarityCalculator._torch_cosine_similarity] in call [n]. *)
Definition _torch_cosine_similarity (n : nat) (query_embedding : list F)
    (stored_embeddings : ndarray F) : PyResult (list F) :=
  match torch_try rt n query_embedding stored_embeddings with
  | inr similarities => inr similarities
  | inl _ => _numpy_cosine_similarity query_embedding stored_embeddings
  end.

(** [GPUSimilarityCalculator.cosine_similarity_batch] in call [n]. *)
Definition cosine_similarity_batch (self : calculator) (n : nat)
    (query_embedding : list F) (stored_embeddings : ndarray F) : PyResult (list F) :=
  if bool_decide (device self = cupy) && CUPY_AVAILABLE rt then
    _cupy_cosine_similarity n query_embedding stored_embeddings
  else if bool_decide (device self = torch) && TORCH_AVAILABLE rt then
    _torch_cosine_similarity n query_embedding stored_embeddings
  else _numpy_cosine_similarity query_embedding stored_embeddings.

(** [get_similarity_calculator]: the module global [_similarity_calculator]
    and its lazy construction. *)
Definition get_similarity_calculator (_similarity_calculator : option calculator)
  : PyResult calculator * option calculator :=
  match _similarity_calculator with
  | Some c => (inr c, Some c)
  | None =>
      match __init__ with
      | inr c => (inr c, Some c)
      | inl e => (inl e, None)
      end
  end.

(** [calculate_similarities] in call [n]. *)
Definition calculate_similarities (_similarity_calculator : option calculator)
    (n : nat) (query_embedding : list F) (stored_embeddings : ndarray F)
  : PyResult (list F) * option calculator :=
  match get_similarity_calculator _similarity_calculator with
  | (inr c, g) => (cosine_similarity_batch c n query_embedding stored_embeddings, g)
  | (inl e, g) => (inl e, g)
  end.

(** Call [n] is computed by the numpy code: the device is "numpy", or the
    library of the selected device is missing, or its [try] block raises in
    this call. *)
Definition on_numpy_path (self : calculator) (n : nat) (q : list F)
    (M : ndarray F) : Prop :=
  match device self with
  | cupy => CUPY_AVAILABLE rt = true → raises (cupy_try rt n q M)
  | torch => TORCH_AVAILABLE rt = true → raises (torch_try rt n q M)
  | numpy => True
  end.

(** The cosine of the angle between two vectors:
    [dot(q, c) / (norm(q) * norm(c))]. *)
Definition cosine (q c : list F) : F :=
  fdiv (vdot q c) (fmul (np_linalg_norm q) (np_linalg_norm c)).

End Calculator.

(** *** Calculators and runtimes used as examples *)

(** A calculator that chose CuPy at construction. *)
Definition on_cupy : calculator := {| gpu_available := true; device := cupy |}.

(** A calculator that chose numpy. *)
Definition on_numpy : calculator := {| gpu_available := false; device := numpy |}.

(** Neither accelerator library is installed. *)
Definition numpy_only {F} : Runtime F := {|
  CUPY_AVAILABLE := false;
  TORCH_AVAILABLE := false;
  cupy_norm_test := raise "NameError" "name 'cp' is not defined";
  torch_cuda_is_available := λ _, raise "NameError" "name 'torch' is not defined";
  cupy_try := λ _ _ _, raise "NameError" "name 'cp' is not defined";
  torch_try := λ _ _ _, raise "NameError" "name 'torch' is not defined"
|}.

(** CuPy is installed and passes the probe; its kernel runs out of
    memory in call 0 and answers [answer] in every later call. *)
Definition cupy_oom_once {F} (answer : list F) : Runtime F := {|
  CUPY_AVAILABLE := true;
  TORCH_AVAILABLE := false;
  cupy_norm_test := inr ();
  torch_cuda_is_available := λ _, raise "NameError" "name 'torch' is not defined";
  cupy_try := λ n _ _,
    match n with
    | 0 => raise "OutOfMemoryError" "out of memory"
    | S _ => inr answer
    end;
  torch_try := λ _ _ _, raise "NameError" "name 'torch' is not defined"
|}.



(** PyTorch is installed, CuPy is not, and [torch.cuda.is_available()]
    raises. *)
Definition torch_probe_raises {F} : Runtime F := {|
  CUPY_AVAILABLE := false;
  TORCH_AVAILABLE := true;
  cupy_norm_test := raise "NameError" "name 'cp' is not defined";
  torch_cuda_is_available := λ _, raise "RuntimeError" "CUDA driver initialization failed";
  cupy_try := λ _ _ _, raise "NameError" "name 'cp' is not defined";
  torch_try := λ _ _ _, raise "RuntimeError" "CUDA driver initialization failed"
|}.

End GpuSimilarity.

(** ** app.py *)

Module App.
Import GpuSimilarity.

(** *** Strings *)

(** [needle in s] *)
Fixpoint str_contains (needle s : string) : bool :=
  String.prefix needle s ||
  match s with
  | EmptyString => false
  | String _ s' => str_contains needle s'
  end.

(** [s.startswith(p)] *)
Definition startswith (s p : string) : bool := String.prefix p s.

(** One character of [str.lower()]: file references are ASCII. *)
Definition ascii_lower (c : ascii) : ascii :=
  let n := nat_of_ascii c in
  if (65 <=? n)%nat && (n <=? 90)%nat then ascii_of_nat (n + 32) else c.

(** [s.lower()] *)
Fixpoint str_lower (s : string) : string :=
  match s with
  | EmptyString => EmptyString
  | String c s' => String (ascii_lower c) (str_lower s')
  end.

(** [all(p(c) for c in s)] *)
Fixpoint str_all (p : ascii → bool) (s : string) : bool :=
  match s with
  | EmptyString => true
  | String c s' => p c && str_all p s'
  end.

(** [s.split(',')[1] if ',' in s else s] *)
Fixpoint upto_comma (s : string) : string :=
  match s with
  | EmptyString => EmptyString
  | String c s' => if Ascii.eqb c "," then EmptyString else String c (upto_comma s')
  end.

Fixpoint after_comma (s : string) : option string :=
  match s with
  | EmptyString => None
  | String c s' => if Ascii.eqb c "," then Some s' else after_comma s'
  end.

Definition base64_part (selfie_data : string) : string :=
  match after_comma selfie_data with
  | Some rest => upto_comma rest
  | None => selfie_data
  end.

(** [',' not in s] *)
Definition comma_free (s : string) : Prop :=
  str_all (λ c, negb (Ascii.eqb c ",")) s = true.

(** *** Constants of the file *)

Definition MAX_WORKERS : nat := 24.
Definition queue_maxsize : nat := 128.
Definition overload_qsize : nat := 100.
Definition put_timeout : nat := 5.
Definition result_timeout : nat := 120.
Definition fetch_timeout : nat := 30.
Definition images_base_url : string := "http://localhost:5000/api/images/".

Section Service.
Context {F : Type} `{Scalar F} {image : Type}.

(** A face record as the face model returns it; only the embedding is
    read here. *)
Record face := { face_embedding : list F; face_confidence : F }.

(** The [requests] response. *)
Record http_response := { http_status : nat; content : string }.

(** [response.raise_for_status()] *)
Definition raise_for_status (r : http_response) : PyResult unit :=
  if (400 <=? http_status r)%nat && (http_status r <? 600)%nat
  then raise "HTTPError" "error response"
  else inr ().

(** The collaborators of the service. [cv2.imdecode] gives [None] for
    bytes that are no image and raises on an empty buffer; a detector may
    hand back [None]. *)
Record Collaborators := {
  requests_get : string → nat → PyResult http_response;
  cv2_imdecode : string → PyResult (option image);
  cv2_cvtColor : image → image;
  detect_faces : image → PyResult (option (list face));
  process_image_file : string → PyResult (option (list face));
  base64_b64decode : string → PyResult string
}.

Variable co : Collaborators.

(** *** process_worker *)

(** The tuple a worker puts on a job's result queue. *)
Inductive job_result :=
| success (faces : list face)
| error (msg : string).

(** Where a worker went for the image. *)
Inductive call :=
| http_get (url : string) (timeout : nat)
| read_local (path : string).

(** Decode the fetched bytes and run the detector; [what] names the
    source in the message of an undecodable image. *)
Definition decode_detect (what : string) (r : http_response)
  : PyResult (option (list face)) :=
  let* _ := raise_for_status r in
  let* decoded := cv2_imdecode co (content r) in
  match decoded with
  | Some img => detect_faces co (cv2_cvtColor co img)
  | None => raise "Exception" ("Could not decode " +:+ what +:+ " image")
  end.

(** The statements after the three branches: the log line takes
    [len(faces)], then the result is put. *)
Definition report (faces : option (list face)) : PyResult job_result :=
  match faces with
  | None => raise "TypeError" "object of type 'NoneType' has no len()"
  | Some fs => inr (success fs)
  end.

(** [except Exception as e: result_queue.put(('error', str(e)))] *)
Definition outer_handler (r : PyResult job_result) : job_result :=
  match r with
  | inr m => m
  | inl e => error (exn_str e)
  end.

(** A branch with its own handler: the prefixed error and [continue], or
    on to the common tail. *)
Definition branch (prefix : string) (r : PyResult (option (list face))) : job_result :=
  match r with
  | inl e => error (prefix +:+ exn_str e)
  | inr faces => outer_handler (report faces)
  end.

(** The body of the loop for one work item: the collaborator calls it
    makes for the image and what it puts on the item's result queue. *)
Definition handle_item (photo_path : string) : list call * list job_result :=
  if startswith photo_path "http" && str_contains "cloudinary.com" photo_path then
    ([http_get photo_path fetch_timeout],
     [branch "Cloudinary processing error: "
        (let* response := requests_get co photo_path fetch_timeout in
         decode_detect "Cloudinary" response)])
  else if bool_decide (String.length photo_path = 24) &&
          str_all (λ c, str_contains (String c EmptyString) "0123456789abcdef")
                  (str_lower photo_path) then
    let image_url := images_base_url +:+ photo_path in
    ([http_get image_url fetch_timeout],
     [branch "GridFS processing error: "
        (let* response := requests_get co image_url fetch_timeout in
         decode_detect "GridFS" response)])
  else
    ([read_local photo_path],
     [branch "File processing error: " (process_image_file co photo_path)]).

(** What [app.processing_queue.get(timeout=30)] gives a worker. *)
Inductive got :=
| work_item (photo_path : string) (result_queue : nat)
| shutdown_signal
| queue_Empty.

Inductive worker_status := waiting | exited.

(** What a worker has done so far: the tuples put, each with the result
    queue it went to, and the collaborator calls. *)
Record worker_log := {
  delivered : list (nat * job_result);
  calls : list call;
  status : worker_status
}.

(** [process_worker] against the sequence of outcomes of its [get]s, once
    [get_face_processor()] has handed over the processor. The [finally]
    clause ([gc.collect()], [task_done()]) puts nothing on a result
    queue. *)
Fixpoint process_worker (gets : list got) : worker_log :=
  match gets with
  | [] => {| delivered := []; calls := []; status := waiting |}
  | shutdown_signal :: _ => {| delivered := []; calls := []; status := exited |}
  | queue_Empty :: rest => process_worker rest
  | work_item photo_path result_queue :: rest =>
      let '(cs, puts) := handle_item photo_path in
      let log := process_worker rest in
      {| delivered := map (λ m, (result_queue, m)) puts ++ delivered log;
         calls := cs ++ calls log;
         status := status log |}
  end.

(** The failures of a job that a worker has to absorb: the fetch or the
    lookup raises or answers with an error status, the bytes do not decode,
    the detector raises, the local file cannot be processed. *)
Inductive job_failure (photo_path : string) : Prop :=
| fetch_raises url e :
    (handle_item photo_path).1 = [http_get url fetch_timeout] →
    requests_get co url fetch_timeout = inl e →
    job_failure photo_path
| fetch_error_status url r e :
    (handle_item photo_path).1 = [http_get url fetch_timeout] →
    requests_get co url fetch_timeout = inr r →
    raise_for_status r = inl e →
    job_failure photo_path
| decode_fails url r :
    (handle_item photo_path).1 = [http_get url fetch_timeout] →
    requests_get co url fetch_timeout = inr r →
    raise_for_status r = inr () →
    cv2_imdecode co (content r) = inr None →
    job_failure photo_path
| decode_raises url r e :
    (handle_item photo_path).1 = [http_get url fetch_timeout] →
    requests_get co url fetch_timeout = inr r →
    raise_for_status r = inr () →
    cv2_imdecode co (content r) = inl e →
    job_failure photo_path
| detector_raises url r img e :
    (handle_item photo_path).1 = [http_get url fetch_timeout] →
    requests_get co url fetch_timeout = inr r →
    raise_for_status r = inr () →
    cv2_imdecode co (content r) = inr (Some img) →
    detect_faces co (cv2_cvtColor co img) = inl e →
    job_failure photo_path
| local_raises e :
    (handle_item photo_path).1 = [read_local photo_path] →
    process_image_file co photo_path = inl e →
    job_failure photo_path.


(** A lowercase hexadecimal digit: 0-9 or a-f. *)
Definition is_lower_hex (c : ascii) : bool :=
  let n := nat_of_ascii c in
  ((48 <=? n)%nat && (n <=? 57)%nat) || ((97 <=? n)%nat && (n <=? 102)%nat).

(** The resolution rule in the words of the specification: a URL of the
    object store, else a 24-character token of lowercase hexadecimal
    digits, else a local path. *)
Definition spec_resolution (file_ref : string) : call :=
  if startswith file_ref "http" && str_contains "cloudinary.com" file_ref
  then http_get file_ref fetch_timeout
  else if bool_decide (String.length file_ref = 24) && str_all is_lower_hex file_ref
  then http_get (images_base_url +:+ file_ref) fetch_timeout
  else read_local file_ref.

(** A hexadecimal digit in either case. *)
Definition is_hex (c : ascii) : bool :=
  let n := nat_of_ascii c in
  ((48 <=? n)%nat && (n <=? 57)%nat) || ((97 <=? n)%nat && (n <=? 102)%nat) ||
  ((65 <=? n)%nat && (n <=? 70)%nat).

(** *** /process-photo *)

(** The JSON body of a response. *)
Inductive body :=
| json_error (msg : string)
| json_faces (faces : list face)
| json_failure (msg : string)
| json_matches (matches : list (string * F)).

Record response := { status_code : nat; json : body }.

(** The fields of the request body that the handler reads with
    [data.get]. *)
Record photo_request := {
  file_reference : option string;
  photoPath : option string
}.

(** [a or b] on optional strings: the first that is neither [None] nor
    empty. *)
Definition py_or (a b : option string) : option string :=
  match a with
  | Some (String _ _) => a
  | _ => b
  end.

(** [not s] *)
Definition py_not (s : option string) : bool :=
  match s with
  | Some (String _ _) => false
  | _ => true
  end.

(** What the handler gets from the queues while it runs; the worker
    threads and the other requests decide it.
    [qsize]: the depth read by the quick check;
    [put_done t]: whether [put] found room within [t] seconds;
    [result_within t]: the tuple received within [t] seconds, if any. *)
Record QueueEnv := {
  qsize : nat;
  put_done : nat → bool;
  result_within : nat → option job_result
}.

(** What the handler does to the shared queue and the pool. *)
Inductive effect :=
| create_queue (maxsize : nat)
| start_worker
| put (photo_path : string) (timeout : nat)
| get_result (timeout : nat).

(** [hasattr(app, 'processing_queue')] and what the first request adds. *)
Definition ensure_pool (has_queue : bool) : list effect :=
  if has_queue then [] else create_queue queue_maxsize :: replicate MAX_WORKERS start_worker.

(** [process_photo]; [request_json] is [request.json], which raises on a
    body that is not a JSON object. *)
Definition process_photo (has_queue : bool) (env : QueueEnv)
    (request_json : PyResult photo_request) : response * list effect :=
  let init := ensure_pool has_queue in
  let depth := if has_queue then qsize env else 0 in
  if (overload_qsize <? depth)%nat then
    ({| status_code := 503; json := json_error "Service overloaded, please try again later" |},
     init)
  else
    match request_json with
    | inl e => ({| status_code := 500; json := json_error (exn_str e) |}, init)
    | inr data =>
        let photo_path := py_or (file_reference data) (photoPath data) in
        if py_not photo_path then
          ({| status_code := 400; json := json_error "file_reference or photoPath is required" |},
           init)
        else
          let path := default EmptyString photo_path in
          let attempt := init ++ [put path put_timeout] in
          if put_done env put_timeout then
            match result_within env result_timeout with
            | Some (success faces) =>
                ({| status_code := 200; json := json_faces faces |},
                 attempt ++ [get_result result_timeout])
            | Some (error msg) =>
                ({| status_code := 500; json := json_failure msg |},
                 attempt ++ [get_result result_timeout])
            | None =>
                ({| status_code := 504; json := json_error "Processing timeout" |},
                 attempt ++ [get_result result_timeout])
            end
          else
            ({| status_code := 503; json := json_error "Service overloaded, please try again later" |},
             attempt)
    end.

(** The queues as the handler of a request for [photo_path] meets them
    when a worker takes the job and answers within the timeouts: [depth]
    jobs wait at the quick check, [put] finds room, and the tuple on the
    request's result queue is the one the worker put there. *)
Definition served_by_worker (depth : nat) (photo_path : string) : QueueEnv :=
  {| qsize := depth;
     put_done := λ _, true;
     result_within := λ _, head (handle_item photo_path).2 |}.

(** *** /compare-faces *)

(** One entry of the [embeddings] list of the request. *)
Record candidate := { photoId : string; embedding : list F }.

Record compare_request := {
  selfieData : option string;
  embeddings : list candidate
}.

(** [np.array(rows)] for a list of lists of numbers: the rows must agree in
    length. *)
Definition np_array (rows : list (list F)) : PyResult (ndarray F) :=
  match rows with
  | [] => inr (Arr1 [])
  | r :: _ =>
      if bool_decide (Forall (λ r', length r' = length r) rows)
      then inr (Arr2 (length r) rows)
      else raise "ValueError" "inhomogeneous shape"
  end.

(** The loop that pairs the scores with the ids: [embeddings[i]] raises
    past the end of the list. *)
Fixpoint create_matches (similarities : list F) (embs : list candidate)
  : PyResult (list (string * F)) :=
  match similarities, embs with
  | [], _ => inr []
  | _ :: _, [] => raise "IndexError" "list index out of range"
  | s :: ss, e :: es =>
      let* rest := create_matches ss es in
      inr ((photoId e, s) :: rest)
  end.

(** [matches.sort(key=lambda x: x['similarity'], reverse=True)]: Python's
    sort is stable, also with [reverse], and compares keys with [<]. On
    keys that [<] orders (no NaN among them) every stable sort gives the
    list that insertion gives. *)
Fixpoint insert_desc (m : string * F) (sorted : list (string * F)) : list (string * F) :=
  match sorted with
  | [] => [m]
  | m' :: rest =>
      if fltb (snd m) (snd m') then m' :: insert_desc m rest
      else m :: m' :: rest
  end.

Definition sort_desc (matches : list (string * F)) : list (string * F) :=
  foldr insert_desc [] matches.

(** The selfie as an image: base64, then OpenCV; [cvtColor] raises on the
    [None] of an undecodable image. *)
Definition decode_selfie (selfie_data : string) : PyResult image :=
  let* image_data := base64_b64decode co (base64_part selfie_data) in
  let* decoded := cv2_imdecode co image_data in
  match decoded with
  | Some img => inr (cv2_cvtColor co img)
  | None => raise "error" "(-215:Assertion failed) !_src.empty() in function 'cvtColor'"
  end.

Variable rt : Runtime F.

(** The [try] block of [compare_faces] in call [n] of the process, with
    the module global of [gpu_similarity]. [get_face_processor()], called
    between the decoding and the detection, is taken to hand over the
    processor whose [detect_faces] the collaborators hold. *)
Definition compare_faces_try (g : option calculator) (n : nat)
    (data : compare_request) : PyResult response * option calculator :=
  if py_not (selfieData data) || bool_decide (embeddings data = []) then
    (inr {| status_code := 400; json := json_error "selfieData and embeddings are required" |}, g)
  else
    match decode_selfie (default EmptyString (selfieData data)) with
    | inl e => (inl e, g)
    | inr img =>
        match detect_faces co img with
        | inl e => (inl e, g)
        | inr None | inr (Some []) =>
            (inr {| status_code := 400; json := json_error "No face detected in selfie" |}, g)
        | inr (Some (face0 :: _)) =>
            let selfie_embedding := face_embedding face0 in
            match np_array (map embedding (embeddings data)) with
            | inl e => (inl e, g)
            | inr stored_embeddings =>
                let '(similarities, g') :=
                  calculate_similarities rt g n selfie_embedding stored_embeddings in
                (let* sims := similarities in
                 let* matches := create_matches sims (embeddings data) in
                 inr {| status_code := 200; json := json_matches (sort_desc matches) |},
                 g')
            end
        end
    end.

(** [compare_faces]: any exception becomes a 500 with its message. *)
Definition compare_faces (g : option calculator) (n : nat)
    (data : compare_request) : response * option calculator :=
  match compare_faces_try g n data with
  | (inr resp, g') => (resp, g')
  | (inl e, g') => ({| status_code := 500; json := json_error (exn_str e) |}, g')
  end.

End Service.

Arguments face F : clear implicits.
Arguments Collaborators F image : clear implicits.
Arguments job_result F : clear implicits.
Arguments body F : clear implicits.
Arguments response F : clear implicits.
Arguments QueueEnv F : clear implicits.
Arguments candidate F : clear implicits.
Arguments compare_request F : clear implicits.

(** *** Collaborators used as examples *)

(** Nothing can be reached and no file can be read. *)
Definition unreachable {F} : Collaborators F unit := {|
  requests_get := λ _ _, raise "ConnectionError" "connection refused";
  cv2_imdecode := λ _, inr None;
  cv2_cvtColor := λ img, img;
  detect_faces := λ _, inr (Some []);
  process_image_file := λ _, raise "FileNotFoundError" "no such file";
  base64_b64decode := λ s, inr s
|}.

(** Every image decodes and shows one face, with embedding [e]. *)
Definition one_face {F} (e : list F) (confidence : F) : Collaborators F unit := {|
  requests_get := λ _ _, inr {| http_status := 200; content := "image bytes" |};
  cv2_imdecode := λ _, inr (Some ());
  cv2_cvtColor := λ img, img;
  detect_faces := λ _, inr (Some [{| face_embedding := e; face_confidence := confidence |}]);
  process_image_file := λ _, inr (Some [{| face_embedding := e; face_confidence := confidence |}]);
  base64_b64decode := λ s, inr s
|}.

(** Every image decodes and shows no face. *)
Definition no_face {F} : Collaborators F unit := {|
  requests_get := λ _ _, inr {| http_status := 200; content := "image bytes" |};
  cv2_imdecode := λ _, inr (Some ());
  cv2_cvtColor := λ img, img;
  detect_faces := λ _, inr (Some []);
  process_image_file := λ _, inr (Some []);
  base64_b64decode := λ s, inr s
|}.

(** A queue with [n] jobs waiting, no room within the [put] timeout and no
    result in time. *)
Definition stuck_queue {F} (n : nat) : QueueEnv F := {|
  qsize := n;
  put_done := λ _, false;
  result_within := λ _, None
|}.

(** A queue with [n] jobs waiting that takes the job and never answers. *)
Definition silent_queue {F} (n : nat) : QueueEnv F := {|
  qsize := n;
  put_done := λ _, true;
  result_within := λ _, None
|}.

(** Two jobs around an empty poll: a token of the image service and a
    local path. *)
Definition two_jobs : list got :=
  [ work_item "0123456789abcdef01234567" 1; queue_Empty; work_item "/photos/a.jpg" 2 ].

(** A request with two candidates: "a" is twice the embedding (1, 0),
    "b" is (1, 0) itself. *)
Definition tie_request : compare_request float := {|
  selfieData := Some "data:image/jpeg;base64,/9j/4AAQ";
  embeddings := [ {| photoId := "a"; embedding := [2; 0]%float |};
                  {| photoId := "b"; embedding := [1; 0]%float |} ]
|}.

(** A request with two candidates: "b" is the embedding (1, 2), "a" is
    three times it. *)
Definition copy_then_multiple : compare_request float := {|
  selfieData := Some "data:image/jpeg;base64,/9j/4AAQ";
  embeddings := [ {| photoId := "b"; embedding := [1; 2]%float |};
                  {| photoId := "a"; embedding := [3; 6]%float |} ]
|}.

(** A request with the candidates (0, 1) and (3, 4). *)
Definition two_candidates : compare_request float := {|
  selfieData := Some "data:image/jpeg;base64,/9j/4AAQ";
  embeddings := [ {| photoId := "a"; embedding := [0; 1]%float |};
                  {| photoId := "b"; embedding := [3; 4]%float |} ]
|}.

End App.

(** ** dynamic_batch_processor.py *)

Module DynamicBatch.

Section Processor.
Context {face : Type}.

(** [config]: the two settings the module imports and uses. *)
Variable GPU_AVAILABLE : bool.
Variable MAX_CONCURRENT_IMAGES : nat.

(** [self.face_processor.process_image_file] *)
Variable process_image_file : string → PyResult (list face).

(** The attributes of a [DynamicBatchProcessor] that the batch reads and
    writes. *)
Record processor := {
  processing_queue : list string;
  results : gmap string (list face);
  completed_count : nat;
  total_count : nat;
  processing : bool
}.

(** [DynamicBatchProcessor.__init__] *)
Definition __init__ : processor :=
  {| processing_queue := []; results := ∅; completed_count := 0;
     total_count := 0; processing := false |}.

(** [DynamicBatchProcessor._process_sequential] *)
Definition _process_sequential (image_paths : list string) : gmap string (list face) :=
  fold_left
    (λ results image_path,
       match process_image_file image_path with
       | inr faces => <[image_path := faces]> results
       | inl _ => <[image_path := []]> results
       end)
    image_paths ∅.

(** Where a thread running [_worker_task] is: about to evaluate the loop
    condition, past a true condition and about to call [get_nowait],
    holding a claimed path, or returned. *)
Inductive worker :=
| at_loop_test
| at_get_nowait
| holding (image_path : string)
| finished.

#[export] Instance worker_eq_dec : EqDecision worker.
Proof. solve_decision. Defined.

(** One atomic action of a worker on the shared processor. The store and
    the increment happen under [results_lock]; the log line and
    [_cleanup_gpu_memory] that follow them are taken not to raise. *)
Definition worker_step (w : worker) (self : processor) : worker * processor :=
  match w with
  | at_loop_test =>
      if processing self && negb (bool_decide (processing_queue self = []))
      then (at_get_nowait, self)
      else (finished, self)
  | at_get_nowait =>
      match processing_queue self with
      | [] => (finished, self)
      | image_path :: rest =>
          (holding image_path,
           {| processing_queue := rest; results := results self;
              completed_count := completed_count self;
              total_count := total_count self; processing := processing self |})
      end
  | holding image_path =>
      match process_image_file image_path with
      | inr faces =>
          (at_loop_test,
           {| processing_queue := processing_queue self;
              results := <[image_path := faces]> (results self);
              completed_count := completed_count self + 1;
              total_count := total_count self; processing := processing self |})
      | inl _ =>
          (at_loop_test,
           {| processing_queue := processing_queue self;
              results := results self;
              completed_count := completed_count self + 1;
              total_count := total_count self; processing := processing self |})
      end
  | finished => (finished, self)
  end.

(** [DynamicBatchProcessor.stop_processing] *)
Definition stop_processing (self : processor) : processor :=
  {| processing_queue := processing_queue self; results := results self;
     completed_count := completed_count self; total_count := total_count self;
     processing := false |}.

(** What the scheduler lets happen next: worker [i] takes a step, or
    another thread calls [stop_processing]. *)
Inductive action := run (i : nat) | stop.

Definition pool : Type := list worker * processor.

Definition pool_step (a : action) (p : pool) : pool :=
  match a with
  | stop => (p.1, stop_processing p.2)
  | run i =>
      match p.1 !! i with
      | Some w =>
          let '(w', self') := worker_step w p.2 in
          (<[i := w']> p.1, self')
      | None => p
      end
  end.

Definition run_pool (schedule : list action) (p : pool) : pool :=
  fold_left (λ p a, pool_step a p) schedule p.

Definition all_finished (ws : list worker) : bool :=
  forallb (λ w, match w with finished => true | _ => false end) ws.

(** [DynamicBatchProcessor.process_dynamic_batch] under a schedule of the
    worker threads. The executor returns when every worker has; a schedule
    that stops short of that is not a run of the call ([None]).
    [ThreadPoolExecutor] refuses [max_workers = 0]. *)
Definition process_dynamic_batch (self : processor) (image_paths : list string)
    (schedule : list action)
  : option (PyResult (gmap string (list face)) * processor) :=
  if negb GPU_AVAILABLE then Some (inr (_process_sequential image_paths), self)
  else
    let self1 :=
      {| processing_queue := processing_queue self ++ image_paths;
         results := ∅; completed_count := 0;
         total_count := length image_paths; processing := true |} in
    let max_workers := Nat.min (Nat.min MAX_CONCURRENT_IMAGES (total_count self1)) 16 in
    if bool_decide (max_workers = 0)
    then Some (raise "ValueError" "max_workers must be greater than 0", self1)
    else
      let '(ws, self2) := run_pool schedule (replicate max_workers at_loop_test, self1) in
      if all_finished ws then Some (inr (results self2), self2) else None.

(** The number of workers that hold a claimed path. *)
Definition holding_count (ws : list worker) : nat :=
  sum_list_with (λ w, match w with holding _ => 1 | _ => 0 end) ws.

(** The number of workers past a true loop condition that have not yet
    called [get_nowait]. *)
Definition claiming_count (ws : list worker) : nat :=
  sum_list_with (λ w, match w with at_get_nowait => 1 | _ => 0 end) ws.

(** A key of [results] is a path whose processing returned, with what it
    returned. *)
Definition only_successes (self : processor) : Prop :=
  ∀ p faces, results self !! p = Some faces → process_image_file p = inr faces.

(** A path is settled when its processing raised or its faces are stored. *)
Definition settled (self : processor) (p : string) : Prop :=
  match process_image_file p with
  | inl _ => True
  | inr faces => results self !! p = Some faces
  end.

(** What every step of a batch keeps. Every path is counted
    once: completed, waiting or in a worker's hands. While a path waits
    and nobody has stopped the batch, some worker is still running. Every
    path of the batch waits, is held or is settled; nothing else is. *)
Record pool_invariant (image_paths : list string) (p : pool) : Prop := {
  inv_count :
    completed_count p.2 + length (processing_queue p.2) + holding_count p.1
    = length image_paths;
  inv_progress :
    (∃ w, w ∈ p.1 ∧ w ≠ finished) ∨ processing_queue p.2 = [] ∨ processing p.2 = false;
  inv_cover :
    ∀ x, x ∈ image_paths →
         x ∈ processing_queue p.2 ∨ holding x ∈ p.1 ∨ settled p.2 x;
  inv_queue : ∀ x, x ∈ processing_queue p.2 → x ∈ image_paths;
  inv_held : ∀ x, holding x ∈ p.1 → x ∈ image_paths;
  inv_keys : ∀ x, is_Some (results p.2 !! x) → x ∈ image_paths;
  inv_results : only_successes p.2
}.

(** A schedule under which worker 0 does all the work on [k] items (test,
    claim and process for each, then the last test) and the other [w - 1]
    workers then find the queue empty. *)
Definition solo_schedule (k w : nat) : list action :=
  replicate (3 * k + 1) (run 0) ++ map run (seq 1 (w - 1)).

End Processor.

Arguments processor face : clear implicits.
Arguments pool face : clear implicits.

(** *** A face processor used as an example *)

(** Fails on the path [bad]; finds [faces] in every other image. *)
Definition fails_on {face} (bad : string) (faces : list face) (image_path : string)
  : PyResult (list face) :=
  if bool_decide (image_path = bad) then raise "ValueError" "cannot read image"
  else inr faces.

End DynamicBatch.

(** ** run-with-gpu.py *)

Module RunWithGpu.
Import App.

Definition cudnn_path : string :=
  "C:\Users\Aakash\AppData\Roaming\Python\Python313\site-packages\nvidia\cudnn\bin".

(** The assignments to [os.environ] at the head of [setup_environment], in
    the order of the file. *)
Definition gpu_settings : list (string * string) :=
  [ ("CUDA_VISIBLE_DEVICES", "0");
    ("FORCE_CPU", "false");
    ("AUTO_DETECT_GPU", "true");
    ("TF_FORCE_GPU_ALLOW_GROWTH", "true");
    ("CUDA_CACHE_DISABLE", "0");
    ("CUDA_LAUNCH_BLOCKING", "0");
    ("CUDNN_BENCHMARK", "1");
    ("GPU_BATCH_SIZE", "64");
    ("GPU_MAX_IMAGE_SIZE", "1920");
    ("ENABLE_MEMORY_OPTIMIZATION", "true");
    ("ENABLE_PARALLEL_PROCESSING", "true");
    ("MAX_WORKERS", "8") ].

(** [os.environ[k] = v] for each pair of a list. *)
Definition assign_all (settings : list (string * string))
    (environ : gmap string string) : gmap string string :=
  fold_left (λ env kv, <[kv.1 := kv.2]> env) settings environ.

(** [setup_environment] on the process environment; [os_path_exists] is
    the file system's answer. *)
Definition setup_environment (os_path_exists : string → bool)
    (environ : gmap string string) : gmap string string :=
  let environ := assign_all gpu_settings environ in
  if os_path_exists cudnn_path then
    let current_path := default EmptyString (environ !! "PATH") in
    if negb (str_contains cudnn_path current_path)
    then <["PATH" := current_path +:+ ";" +:+ cudnn_path]> environ
    else environ
  else environ.

End RunWithGpu.

(** * Properties *)

(** ** Outcomes *)

Lemma raises_or_returns {A} (r : PyResult A) : raises r ∨ returns r.
Proof. destruct r as [e|a]; [left|right]; eexists; reflexivity. Qed.

Lemma raises_not_returns {A} (r : PyResult A) : raises r → ¬ returns r.
Proof. intros [e ->] [a Ha]. discriminate. Qed.

(** ** The similarity engine *)

Module SimilarityFacts.
Import GpuSimilarity.

Section Generic.
Context {F : Type} `{Scalar F}.

Lemma zip_with_self (r : list F) : zip_with fmul r r = map (λ x, fmul x x) r.
Proof. induction r as [|x r IH]; simpl; [reflexivity | now rewrite IH]. Qed.

(** The two ways the module takes a norm agree. *)
Lemma row_norm_norm (r : list F) : row_norm r = np_linalg_norm r.
Proof. unfold row_norm, np_linalg_norm, vdot. now rewrite zip_with_self. Qed.

Lemma nth_nil (j : nat) : nth j (@nil F) f0 = f0.
Proof. now destruct j. Qed.

Lemma map_nth_seq (l : list F) : map (λ i, nth i l f0) (seq 0 (length l)) = l.
Proof.
  apply list_eq. intros i. rewrite list_lookup_fmap.
  destruct (decide (i < length l)) as [Hi|Hi].
  - rewrite lookup_seq_lt by assumption. simpl.
    destruct (lookup_lt_is_Some_2 l i Hi) as [x Hx]. rewrite Hx.
    f_equal. now apply nth_lookup_Some with (d := f0) in Hx.
  - rewrite lookup_seq_ge by lia. simpl. symmetry. apply lookup_ge_None. lia.
Qed.

(** Column [j] of the transpose is row [j]. *)
Lemma transpose_column (d : nat) (rows : list (list F)) (j : nat) (r : list F) :
  rows !! j = Some r → length r = d →
  map (λ c, nth j c f0) (map (λ j', map (λ r', nth j' r' f0) rows) (seq 0 d)) = r.
Proof.
  intros Hj Hd. rewrite map_map. subst d. rewrite <- (map_nth_seq r) at 2.
  apply map_ext. intros i.
  assert (Hn : nth j rows [] = r) by now apply nth_lookup_Some.
  rewrite <- Hn.
  etransitivity; [|apply (map_nth (λ r', nth i r' f0) rows [] j)].
  now rewrite nth_nil.
Qed.

(** [np.dot(q, M.T)] is the vector of the inner products with the rows. *)
Lemma np_dot_transpose (q : list F) (d : nat) (rows : list (list F)) :
  Forall (λ r, length r = d) rows → length q = d →
  np_dot q (T (Arr2 d rows)) = inr (DVec (map (vdot q) rows)).
Proof.
  intros Hwf Hq. simpl. rewrite length_map, length_seq.
  destruct (decide (length q = d)) as [_|Hne]; [|contradiction].
  do 2 f_equal. apply list_eq. intros j. rewrite !list_lookup_fmap.
  destruct (rows !! j) as [r|] eqn:Hj.
  - rewrite lookup_seq_lt by (eapply lookup_lt_Some; eassumption). simpl.
    f_equal. f_equal. apply transpose_column; [assumption|].
    eapply Forall_lookup_1 in Hwf; eassumption.
  - rewrite lookup_seq_ge; [reflexivity|]. apply lookup_ge_None in Hj. lia.
Qed.

Lemma zip_with_map_map {A B C D} (f : B → C → D) (g : A → B) (h : A → C) (l : list A) :
  zip_with f (map g l) (map h l) = map (λ a, f (g a) (h a)) l.
Proof. induction l as [|a l IH]; simpl; [reflexivity | now rewrite IH]. Qed.

(** On a well-formed [N×D] matrix and a query of dimension [D] the [try]
    block returns the cosines, row by row. *)
Lemma numpy_try_matrix (q : list F) (d : nat) (rows : list (list F)) :
  Forall (λ r, length r = d) rows → length q = d →
  numpy_try q (Arr2 d rows) = inr (map (cosine q) rows).
Proof.
  intros Hwf Hq. unfold numpy_try.
  change (np_linalg_norm_axis1 (Arr2 d rows)) with (@inr exn _ (map row_norm rows)).
  cbn [py_bind]. rewrite np_dot_transpose by assumption. cbn [py_bind].
  unfold np_true_divide, np_scale. rewrite !length_map.
  destruct (decide (length rows = length rows)) as [_|Hne]; [|contradiction].
  f_equal. rewrite map_map, zip_with_map_map. apply map_ext. intros c.
  unfold cosine. now rewrite row_norm_norm.
Qed.

(** The [try] block raises exactly on an array with one axis and on a
    matrix whose column count differs from the query's dimension. *)
Lemma numpy_try_raises_iff (q : list F) (M : ndarray F) :
  wf_ndarray M →
  raises (numpy_try q M) ↔
  match M with
  | Arr1 _ => True
  | Arr2 d _ => length q ≠ d
  end.
Proof.
  intros Hwf. destruct M as [v|d rows].
  - split; [trivial|]. intros _. eexists. reflexivity.
  - destruct (decide (length q = d)) as [Hq|Hq].
    + rewrite numpy_try_matrix by assumption. split; [|contradiction].
      intros [e He]. discriminate.
    + split; [trivial|]. intros _. unfold numpy_try. simpl.
      rewrite length_map, length_seq.
      destruct (decide (length q = d)); [contradiction|]. eexists. reflexivity.
Qed.

Lemma numpy_returns (q : list F) (M : ndarray F) :
  returns (_numpy_cosine_similarity q M).
Proof.
  unfold _numpy_cosine_similarity.
  destruct (numpy_try q M); eexists; reflexivity.
Qed.

Lemma numpy_zeros_on_raise (q : list F) (M : ndarray F) :
  raises (numpy_try q M) →
  _numpy_cosine_similarity q M = inr (np_zeros (py_len M)).
Proof. intros [e He]. unfold _numpy_cosine_similarity. now rewrite He. Qed.

Variable rt : Runtime F.

(** A call on the numpy path is the numpy function. *)
Lemma batch_on_numpy_path (self : calculator) (n : nat) (q : list F) (M : ndarray F) :
  on_numpy_path rt self n q M →
  cosine_similarity_batch rt self n q M = _numpy_cosine_similarity q M.
Proof.
  unfold on_numpy_path, cosine_similarity_batch,
    _cupy_cosine_similarity, _torch_cosine_similarity.
  destruct (device self); simpl.
  - destruct (CUPY_AVAILABLE rt); [|reflexivity].
    intros Hr. destruct (Hr eq_refl) as [e ->]. reflexivity.
  - destruct (TORCH_AVAILABLE rt); [|reflexivity].
    intros Hr. destruct (Hr eq_refl) as [e ->]. reflexivity.
  - reflexivity.
Qed.


(** An array without elements, [np.array([])], also gives the empty
    result: the axis error ends in [np.zeros(0)]. *)
Lemma empty_one_axis_array (q : list F) :
  _numpy_cosine_similarity q (Arr1 []) = inr [].
Proof. reflexivity. Qed.

(** C3. When the selected accelerated backend raises in a call, the call
    returns what the numpy function returns for the same arguments, and
    it returns rather than raises. The calculator is not changed by it:
    in any call in which the backend answers, the answer is the
    backend's. *)
Theorem backend_failure_falls_back_to_numpy (self : calculator) (n : nat)
    (q : list F) (M : ndarray F) :
  (device self = cupy ∧ CUPY_AVAILABLE rt = true ∧ raises (cupy_try rt n q M)) ∨
  (device self = torch ∧ TORCH_AVAILABLE rt = true ∧ raises (torch_try rt n q M)) →
  cosine_similarity_batch rt self n q M = _numpy_cosine_similarity q M ∧
  returns (cosine_similarity_batch rt self n q M) ∧
  (∀ m q' M' r,
     (device self = cupy → cupy_try rt m q' M' = inr r) →
     (device self = torch → torch_try rt m q' M' = inr r) →
     cosine_similarity_batch rt self m q' M' = inr r).
Proof.
  intros Hsel.
  assert (Hpath : on_numpy_path rt self n q M).
  { unfold on_numpy_path. destruct Hsel as [(-> & _ & Hr)|(-> & _ & Hr)]; now intros _. }
  split; [now apply batch_on_numpy_path|].
  split; [rewrite batch_on_numpy_path by assumption; apply numpy_returns|].
  intros m q' M' r Hc Ht.
  unfold cosine_similarity_batch, _cupy_cosine_similarity, _torch_cosine_similarity.
  destruct Hsel as [(Hd & Ha & _)|(Hd & Ha & _)]; rewrite Hd, Ha; simpl.
  - now rewrite (Hc Hd).
  - now rewrite (Ht Hd).
Qed.

(** C10. When the numpy computation itself raises on the numpy path, the
    call does not raise: it returns zeros, one per candidate row. *)
Theorem numpy_failure_returns_zeros (self : calculator) (n : nat)
    (q : list F) (M : ndarray F) :
  on_numpy_path rt self n q M →
  raises (numpy_try q M) →
  cosine_similarity_batch rt self n q M = inr (np_zeros (py_len M)) ∧
  length (np_zeros (py_len M) : list F) = py_len M ∧
  Forall (λ x, x = f0) (np_zeros (py_len M)).
Proof.
  intros Hpath Hr. rewrite batch_on_numpy_path by assumption.
  split; [now apply numpy_zeros_on_raise|].
  unfold np_zeros. split; [apply length_replicate|].
  apply Forall_forall. intros x Hx. now apply elem_of_replicate in Hx.
Qed.

(** A query whose dimension differs from the matrix's is such an input. *)
Lemma dimension_mismatch_raises (q : list F) (d : nat) (rows : list (list F)) :
  length q ≠ d → raises (numpy_try q (Arr2 d rows)).
Proof.
  intros Hq. unfold numpy_try. simpl. rewrite length_map, length_seq.
  destruct (decide (length q = d)); [contradiction|]. eexists. reflexivity.
Qed.

End Generic.

(** *** Construction *)

(** The probe in [_check_gpu_availability] is guarded: it never makes the
    check raise. The call in [_get_best_device] is not. *)
Lemma init_returns_iff {F} (rt : Runtime F) :
  returns (__init__ rt) ↔
  (CUPY_AVAILABLE rt && _check_gpu_availability rt = false →
   TORCH_AVAILABLE rt = true →
   returns (torch_cuda_is_available rt in_get_best_device)).
Proof.
  unfold __init__, _get_best_device.
  destruct (CUPY_AVAILABLE rt && _check_gpu_availability rt) eqn:Hc; simpl.
  - split; [intros _ Hf; discriminate | intros _; eexists; reflexivity].
  - destruct (TORCH_AVAILABLE rt); simpl.
    + destruct (torch_cuda_is_available rt in_get_best_device) as [e|b]; simpl.
      * split; [intros [c Hc']; discriminate|].
        intros Hr. destruct (Hr eq_refl eq_refl) as [b Hb]. discriminate.
      * split; [intros _ _ _; eexists; reflexivity|].
        intros _. destruct b; eexists; reflexivity.
    + split; [intros _ _ Hf; discriminate | intros _; eexists; reflexivity].
Qed.

(** When construction returns, the device follows the priority order. *)
Lemma init_device_priority {F} (rt : Runtime F) (c : calculator) :
  __init__ rt = inr c →
  device c =
    if CUPY_AVAILABLE rt && gpu_available c then cupy
    else if TORCH_AVAILABLE rt then
      match torch_cuda_is_available rt in_get_best_device with
      | inr true => torch
      | _ => numpy
      end
    else numpy.
Proof.
  unfold __init__, _get_best_device.
  destruct (CUPY_AVAILABLE rt && _check_gpu_availability rt) eqn:Hc; simpl.
  - intros [= <-]. simpl. now rewrite Hc.
  - destruct (TORCH_AVAILABLE rt); simpl.
    + destruct (torch_cuda_is_available rt in_get_best_device) as [e|[|]]; simpl;
        intros [= <-]; simpl; now rewrite Hc.
    + intros [= <-]. simpl. now rewrite Hc.
Qed.

(** C9. With PyTorch installed, CuPy absent and
    [torch.cuda.is_available()] raising, the guarded probe of
    [_check_gpu_availability] reports "no GPU", and the unguarded call in
    [_get_best_device] then makes the constructor raise. *)
Theorem init_raises_when_torch_probe_raises :
  _check_gpu_availability (@torch_probe_raises float) = false ∧
  __init__ (@torch_probe_raises float) =
    raise "RuntimeError" "CUDA driver initialization failed".
Proof. split; reflexivity. Qed.

End SimilarityFacts.

(** ** The service *)

Module AppFacts.
Import GpuSimilarity App.

(** *** Resolution of a file reference *)

(** The membership test of the worker, after [lower()], accepts the
    hexadecimal digits of both cases. *)
Lemma hex_test_after_lower (c : ascii) :
  str_contains (String (ascii_lower c) EmptyString) "0123456789abcdef" = is_hex c.
Proof. destruct c as [[] [] [] [] [] [] [] []]; reflexivity. Qed.

Lemma all_hex_after_lower (s : string) :
  str_all (λ c, str_contains (String c EmptyString) "0123456789abcdef") (str_lower s)
  = str_all is_hex s.
Proof.
  induction s as [|c s IH]; [reflexivity|].
  simpl str_lower. cbn [str_all]. now rewrite hex_test_after_lower, IH.
Qed.

Section Worker.
Context {F : Type} `{Scalar F} {image : Type}.
Variable co : Collaborators F image.

(** C6, as the code has it. A reference that starts with "http" and
    contains "cloudinary.com" is fetched from that URL; otherwise a
    24-character token of hexadecimal digits, in either letter case, is
    fetched from the image service under
    [http://localhost:5000/api/images/]; every other string is read as a
    local path. Each fetch has a 30 second timeout. *)
Theorem worker_resolution (photo_path : string) :
  (handle_item co photo_path).1 =
  [ if startswith photo_path "http" && str_contains "cloudinary.com" photo_path
    then http_get photo_path 30
    else if bool_decide (String.length photo_path = 24) && str_all is_hex photo_path
    then http_get ("http://localhost:5000/api/images/" +:+ photo_path) 30
    else read_local photo_path ].
Proof.
  unfold handle_item. rewrite all_hex_after_lower.
  destruct (startswith photo_path "http" && str_contains "cloudinary.com" photo_path);
    [reflexivity|].
  destruct (bool_decide (String.length photo_path = 24) && str_all is_hex photo_path);
    reflexivity.
Qed.

(** *** The worker absorbs failures *)

(** Every work item gets exactly one tuple. *)
Lemma handle_item_one_put (photo_path : string) :
  ∃ m, (handle_item co photo_path).2 = [m].
Proof.
  unfold handle_item.
  destruct (startswith photo_path "http" && str_contains "cloudinary.com" photo_path);
    [eexists; reflexivity|].
  destruct (bool_decide (String.length photo_path = 24) && _); eexists; reflexivity.
Qed.

Lemma branch_error_on_raise (prefix : string) (r : PyResult (option (list (face F)))) :
  raises r → ∃ msg, branch prefix r = error msg.
Proof. intros [e ->]. eexists. reflexivity. Qed.

(** A failed job is answered with an error tuple. *)
Lemma failed_job_gets_error (photo_path : string) :
  job_failure co photo_path →
  ∃ msg, (handle_item co photo_path).2 = [error msg].
Proof.
  assert (Hfetch : ∀ url what prefix,
    raises (let* response := requests_get co url fetch_timeout in
            decode_detect co what response) →
    ∃ msg, [branch prefix (let* response := requests_get co url fetch_timeout in
                           decode_detect co what response)] = [error msg]).
  { intros url what prefix Hr.
    destruct (branch_error_on_raise prefix _ Hr) as [msg ->]. eauto. }
  assert (Hraise : ∀ url what, 
    (∃ e, requests_get co url fetch_timeout = inl e) ∨
    (∃ r, requests_get co url fetch_timeout = inr r ∧
          ((∃ e, raise_for_status r = inl e) ∨
           (raise_for_status r = inr () ∧
            (cv2_imdecode co (content r) = inr None ∨
             (∃ e, cv2_imdecode co (content r) = inl e) ∨
             ∃ img e, cv2_imdecode co (content r) = inr (Some img) ∧
                      detect_faces co (cv2_cvtColor co img) = inl e)))) →
    raises (let* response := requests_get co url fetch_timeout in
            decode_detect co what response)).
  { intros url what [[e ->]|(r & -> & Hr)]; [eexists; reflexivity|].
    unfold decode_detect. cbn [py_bind].
    destruct Hr as [[e ->]|(-> & [->|[[e ->]|(img & e & -> & Hdet)]])];
      cbn [py_bind]; try rewrite Hdet; eexists; reflexivity. }
  intros Hfail.
  destruct Hfail as [url e Hc Hg|url r e Hc Hg Hs|url r Hc Hg Hs Hd|url r e Hc Hg Hs Hd
                    |url r img e Hc Hg Hs Hd Hf|e Hc Hp];
    unfold handle_item in *;
    destruct (startswith photo_path "http" && str_contains "cloudinary.com" photo_path);
    [| destruct (bool_decide (String.length photo_path = 24) && _) | |
       destruct (bool_decide (String.length photo_path = 24) && _) | |
       destruct (bool_decide (String.length photo_path = 24) && _) | |
       destruct (bool_decide (String.length photo_path = 24) && _) | |
       destruct (bool_decide (String.length photo_path = 24) && _) | |
       destruct (bool_decide (String.length photo_path = 24) && _) ];
    simpl in Hc; try discriminate Hc; try (injection Hc as <-);
    cbn [snd];
    try (apply Hfetch, Hraise; eauto 15).
  rewrite Hp. eexists. reflexivity.
Qed.



End Worker.

(** *** Admission to the queue *)

Section Admission.
Context {F : Type} `{Scalar F}.

(** C4. The soft threshold is 100, below the capacity of 128. A request
    that finds more than 100 jobs waiting is answered 503 before anything
    is put on the queue. A request whose [put] finds no room within 5
    seconds is answered with the same 503. A request whose job is queued
    and whose result does not arrive within 120 seconds is answered 504. *)
Theorem process_photo_backpressure :
  (overload_qsize = 100 ∧ queue_maxsize = 128 ∧ overload_qsize < queue_maxsize) ∧
  (∀ (env : QueueEnv F) (request_json : PyResult photo_request),
     overload_qsize < qsize env →
     process_photo true env request_json =
       ({| status_code := 503;
           json := json_error "Service overloaded, please try again later" |},
        [])) ∧
  (∀ (has_queue : bool) (env : QueueEnv F) (data : photo_request) (path : string),
     (has_queue = true → qsize env ≤ overload_qsize) →
     py_or (file_reference data) (photoPath data) = Some path →
     path ≠ EmptyString →
     put_done env 5 = false →
     process_photo has_queue env (inr data) =
       ({| status_code := 503;
           json := json_error "Service overloaded, please try again later" |},
        ensure_pool has_queue ++ [put path 5])) ∧
  (∀ (has_queue : bool) (env : QueueEnv F) (data : photo_request) (path : string),
     (has_queue = true → qsize env ≤ overload_qsize) →
     py_or (file_reference data) (photoPath data) = Some path →
     path ≠ EmptyString →
     put_done env 5 = true →
     result_within env 120 = None →
     process_photo has_queue env (inr data) =
       ({| status_code := 504; json := json_error "Processing timeout" |},
        ensure_pool has_queue ++ [put path 5; get_result 120])).
Proof.
  split; [repeat split; unfold overload_qsize, queue_maxsize; lia|].
  assert (Hdepth : ∀ (has_queue : bool) (env : QueueEnv F),
            (has_queue = true → qsize env ≤ overload_qsize) →
            (overload_qsize <? (if has_queue then qsize env else 0))%nat = false).
  { intros [|] env Hq; apply Nat.ltb_ge; [now apply Hq | unfold overload_qsize; lia]. }
  assert (Hnot : ∀ path, path ≠ EmptyString → py_not (Some path) = false).
  { intros [|c path] Hp; [contradiction | reflexivity]. }
  split; [|split].
  - intros env request_json Hq. unfold process_photo.
    apply Nat.ltb_lt in Hq. now rewrite Hq.
  - intros has_queue env data path Hq Hpath Hne Hput. unfold process_photo.
    rewrite (Hdepth _ _ Hq), Hpath, (Hnot _ Hne).
    unfold put_timeout. now rewrite Hput.
  - intros has_queue env data path Hq Hpath Hne Hput Hres. unfold process_photo.
    rewrite (Hdepth _ _ Hq), Hpath, (Hnot _ Hne).
    unfold put_timeout, result_timeout. rewrite Hput, Hres.
    simpl. now rewrite <- app_assoc.
Qed.

End Admission.

End AppFacts.

(** ** /compare-faces *)

Module CompareFacts.
Import GpuSimilarity App SimilarityFacts.

Section Pairing.
Context {F : Type} `{Scalar F}.

Lemma insert_desc_perm (m : string * F) (l : list (string * F)) :
  insert_desc m l ≡ₚ m :: l.
Proof.
  induction l as [|m' l IH]; simpl; [reflexivity|].
  destruct (fltb m.2 m'.2); [|reflexivity].
  rewrite IH. apply Permutation_swap.
Qed.

(** Sorting rearranges the matches and loses none. *)
Lemma sort_desc_perm (l : list (string * F)) : sort_desc l ≡ₚ l.
Proof.
  induction l as [|m l IH]; simpl; [reflexivity|].
  now rewrite insert_desc_perm, IH.
Qed.








Variable image : Type.
Variable co : Collaborators F image.
Variable rt : Runtime F.


End Pairing.

(** *** The order of binary64 *)











Section Compare.
Context {image : Type}.
Variable co : Collaborators float image.
Variable rt : Runtime float.


End Compare.


End CompareFacts.

(** ** The dynamic batch scheduler *)

Module BatchFacts.
Import DynamicBatch.

Section Batch.
Context {face : Type}.
Variable GPU_AVAILABLE : bool.
Variable MAX_CONCURRENT_IMAGES : nat.
Variable process_image_file : string → PyResult (list face).

(** *** Without an accelerator *)

Lemma sequential_fold (image_paths : list string) (acc : gmap string (list face)) (p : string) :
  fold_left
    (λ results image_path,
       match process_image_file image_path with
       | inr faces => <[image_path := faces]> results
       | inl _ => <[image_path := []]> results
       end) image_paths acc !! p =
  match list_find (λ x, x = p) (reverse image_paths) with
  | Some _ => Some (match process_image_file p with inr faces => faces | inl _ => [] end)
  | None => acc !! p
  end.
Proof.
  revert acc. induction image_paths as [|x l IH]; intros acc; [reflexivity|].
  cbn [fold_left]. rewrite IH, reverse_cons.
  destruct (list_find (λ x, x = p) (reverse l)) as [[i y]|] eqn:Hf.
  - erewrite list_find_app_l by exact Hf. reflexivity.
  - rewrite list_find_app_r by exact Hf. simpl.
    destruct (decide (x = p)) as [->|Hne]; simpl.
    + destruct (process_image_file p); now rewrite lookup_insert_eq.
    + destruct (process_image_file x); now rewrite lookup_insert_ne.
Qed.

(** The sequential path gives every input path a key, and a path that
    fails the empty list. *)
Lemma sequential_keys (image_paths : list string) (p : string) :
  _process_sequential process_image_file image_paths !! p =
  if decide (p ∈ image_paths)
  then Some (match process_image_file p with inr faces => faces | inl _ => [] end)
  else None.
Proof.
  unfold _process_sequential. rewrite sequential_fold.
  destruct (list_find (λ x, x = p) (reverse image_paths)) as [[i y]|] eqn:Hf.
  - apply list_find_Some in Hf as (Hi & -> & _).
    apply list_elem_of_lookup_2 in Hi. rewrite elem_of_reverse in Hi.
    now rewrite decide_True.
  - rewrite lookup_empty. apply list_find_None in Hf.
    rewrite decide_False; [reflexivity|].
    intros Hin. rewrite <- elem_of_reverse in Hin.
    rewrite Forall_forall in Hf. now apply (Hf p).
Qed.

(** *** With an accelerator *)

Lemma worker_step_only_successes (w : worker) (self : processor face) :
  only_successes process_image_file self →
  only_successes process_image_file (worker_step process_image_file w self).2.
Proof.
  intros Hinv. destruct w as [| |image_path|]; simpl.
  - destruct (processing self && _); exact Hinv.
  - destruct (processing_queue self); exact Hinv.
  - destruct (process_image_file image_path) as [e|faces] eqn:Hp; [exact Hinv|].
    intros p fs. simpl. rewrite lookup_insert.
    destruct (decide (image_path = p)) as [<-|_]; [congruence|apply Hinv].
  - exact Hinv.
Qed.

Lemma pool_step_only_successes (a : action) (p : pool face) :
  only_successes process_image_file p.2 →
  only_successes process_image_file (pool_step process_image_file a p).2.
Proof.
  intros Hinv. destruct a as [i|]; simpl; [|exact Hinv].
  destruct (p.1 !! i) as [w|]; [|exact Hinv].
  pose proof (worker_step_only_successes w p.2 Hinv) as Hstep.
  destruct (worker_step process_image_file w p.2). exact Hstep.
Qed.

Lemma run_pool_only_successes (schedule : list action) (p : pool face) :
  only_successes process_image_file p.2 →
  only_successes process_image_file (run_pool process_image_file schedule p).2.
Proof.
  revert p. induction schedule as [|a schedule IH]; intros p Hinv; [exact Hinv|].
  simpl. apply IH. now apply pool_step_only_successes.
Qed.

(** Under every schedule, the mapping that the dynamic path returns has no
    key for a path whose processing raised. *)
Lemma dynamic_failed_path_has_no_key (self self' : processor face)
    (image_paths : list string) (schedule : list action)
    (m : gmap string (list face)) (p : string) (e : exn) :
  GPU_AVAILABLE = true →
  process_dynamic_batch GPU_AVAILABLE MAX_CONCURRENT_IMAGES process_image_file
    self image_paths schedule = Some (inr m, self') →
  process_image_file p = inl e →
  m !! p = None.
Proof.
  intros -> Hrun Hp. unfold process_dynamic_batch in Hrun. simpl in Hrun.
  destruct (bool_decide _); [discriminate|].
  match type of Hrun with
  | context [run_pool _ ?s ?p0] =>
      pose proof (run_pool_only_successes s p0) as Hinv;
      destruct (run_pool process_image_file s p0) as [ws self2]
  end.
  destruct (all_finished ws); [|discriminate].
  injection Hrun as <- <-.
  destruct (results self2 !! p) as [faces|] eqn:Hl; [|reflexivity].
  assert (Hs : process_image_file p = inr faces).
  { apply Hinv; [|exact Hl]. intros p' fs. simpl. now rewrite lookup_empty. }
  congruence.
Qed.

(** *** Every step keeps the books *)

Lemma holding_count_insert (ws : list worker) (i : nat) (w w' : worker) :
  ws !! i = Some w →
  holding_count (<[i := w']> ws) + holding_count [w]
  = holding_count ws + holding_count [w'].
Proof.
  unfold holding_count. revert i.
  induction ws as [|v ws IH]; intros [|i] Hi; simpl in *; try discriminate.
  - injection Hi as ->. lia.
  - specialize (IH i Hi). lia.
Qed.

Lemma elem_of_insert_inv (ws : list worker) (i : nat) (w' v : worker) :
  v ∈ <[i := w']> ws → v = w' ∨ v ∈ ws.
Proof.
  intros Hv. apply list_elem_of_lookup_1 in Hv as [j Hj].
  apply list_lookup_insert_Some in Hj as [(_ & -> & _)|(_ & Hj)]; [now left|].
  right. eapply list_elem_of_lookup_2. exact Hj.
Qed.

Lemma elem_of_insert_keep (ws : list worker) (i : nat) (w w' v : worker) :
  ws !! i = Some w → v ∈ ws → v ≠ w → v ∈ <[i := w']> ws.
Proof.
  intros Hi Hv Hne. apply list_elem_of_lookup_1 in Hv as [j Hj].
  apply list_elem_of_lookup_2 with (i := j).
  rewrite list_lookup_insert_ne; [exact Hj|]. intros <-. congruence.
Qed.

Lemma elem_of_insert_new (ws : list worker) (i : nat) (w w' : worker) :
  ws !! i = Some w → w' ∈ <[i := w']> ws.
Proof. intros Hi. apply list_elem_of_insert. eapply lookup_lt_Some. exact Hi. Qed.

(** A worker that neither held nor holds a path changes place; it may
    return only on an empty queue or a stopped batch. *)
Lemma invariant_idle_move (image_paths : list string) (ws : list worker)
    (self : processor face) (i : nat) (w w' : worker) :
  ws !! i = Some w →
  holding_count [w] = 0 → holding_count [w'] = 0 →
  (w' = finished → processing_queue self = [] ∨ processing self = false) →
  pool_invariant process_image_file image_paths (ws, self) →
  pool_invariant process_image_file image_paths (<[i := w']> ws, self).
Proof.
  intros Hi Hw Hw' Hfin [Hc Hp Hcov Hq Hh Hk Hr].
  pose proof (holding_count_insert ws i w w' Hi) as Hcnt.
  rewrite Hw, Hw' in Hcnt.
  assert (Hnh : ∀ x, holding x ≠ w) by (intros x <-; discriminate Hw).
  assert (Hnh' : ∀ x, holding x ≠ w') by (intros x <-; discriminate Hw').
  simpl in *.
  constructor; simpl; try assumption.
  - lia.
  - destruct (decide (w' = finished)) as [Hf|Hf].
    + right. now apply Hfin.
    + left. exists w'. split; [eapply elem_of_insert_new; exact Hi | exact Hf].
  - intros x Hx. destruct (Hcov x Hx) as [?|[Hheld|?]]; auto.
    right. left. eapply elem_of_insert_keep; [exact Hi | exact Hheld | apply Hnh].
  - intros x Hx. apply elem_of_insert_inv in Hx as [Hx|Hx]; [now destruct (Hnh' x)|].
    now apply Hh.
Qed.

(** A worker takes the head of the queue. *)
Lemma invariant_claim (image_paths : list string) (ws : list worker)
    (self : processor face) (i : nat) (x : string) (rest : list string) :
  ws !! i = Some at_get_nowait →
  processing_queue self = x :: rest →
  pool_invariant process_image_file image_paths (ws, self) →
  pool_invariant process_image_file image_paths
    (<[i := holding x]> ws,
     {| processing_queue := rest; results := results self;
        completed_count := completed_count self;
        total_count := total_count self; processing := processing self |}).
Proof.
  intros Hi Hqueue [Hc Hp Hcov Hq Hh Hk Hr]. simpl in *.
  pose proof (holding_count_insert ws i at_get_nowait (holding x) Hi) as Hcnt.
  unfold holding_count in Hcnt at 2 4. simpl in Hcnt.
  rewrite Hqueue in *. simpl in Hc.
  constructor; simpl; try assumption.
  - lia.
  - left. exists (holding x). split; [eapply elem_of_insert_new; exact Hi | discriminate].
  - intros y Hy. destruct (Hcov y Hy) as [Hin|[Hheld|Hset]].
    + apply elem_of_cons in Hin as [->|Hin]; [|now left].
      right. left. eapply elem_of_insert_new. exact Hi.
    + right. left. eapply elem_of_insert_keep; [exact Hi | exact Hheld | discriminate].
    + right. right. exact Hset.
  - intros y Hy. apply Hq. now right.
  - intros y Hy. apply elem_of_insert_inv in Hy as [Hy|Hy]; [|now apply Hh].
    injection Hy as ->. apply Hq. now left.
Qed.

(** A worker is done with the path it holds. *)
Lemma invariant_done (image_paths : list string) (ws : list worker)
    (self : processor face) (i : nat) (x : string) :
  ws !! i = Some (holding x) →
  pool_invariant process_image_file image_paths (ws, self) →
  pool_invariant process_image_file image_paths
    (<[i := (worker_step process_image_file (holding x) self).1]> ws,
     (worker_step process_image_file (holding x) self).2).
Proof.
  intros Hi [Hc Hp Hcov Hq Hh Hk Hr]. simpl in *.
  pose proof (holding_count_insert ws i (holding x) at_loop_test Hi) as Hcnt.
  unfold holding_count in Hcnt at 2 4. simpl in Hcnt.
  assert (Hx : x ∈ image_paths) by (apply Hh; eapply list_elem_of_lookup_2; exact Hi).
  assert (Hrun : at_loop_test ∈ <[i := at_loop_test]> ws)
    by (eapply elem_of_insert_new; exact Hi).
  destruct (process_image_file x) as [e|faces] eqn:Hpx; simpl;
    constructor; simpl; try assumption; try lia;
    try (left; exists at_loop_test; split; [exact Hrun | discriminate]);
    try (intros y Hy; apply elem_of_insert_inv in Hy as [Hy|Hy];
         [discriminate Hy | now apply Hh]).
  - intros y Hy. destruct (Hcov y Hy) as [Hin|[Hheld|Hset]]; [now left| |now right; right].
    destruct (decide (y = x)) as [->|Hne].
    + right. right. unfold settled. now rewrite Hpx.
    + right. left. eapply elem_of_insert_keep; [exact Hi | exact Hheld | congruence].
  - intros y Hy. destruct (Hcov y Hy) as [Hin|[Hheld|Hset]]; [now left| |].
    + destruct (decide (y = x)) as [->|Hne].
      * right. right. unfold settled. simpl. now rewrite Hpx, lookup_insert_eq.
      * right. left. eapply elem_of_insert_keep; [exact Hi | exact Hheld | congruence].
    + right. right. unfold settled in *. simpl.
      destruct (decide (x = y)) as [->|Hne].
      * now rewrite Hpx, lookup_insert_eq.
      * now rewrite lookup_insert_ne.
  - intros y Hy. rewrite lookup_insert in Hy.
    destruct (decide (x = y)) as [<-|_]; [exact Hx | now apply Hk].
  - intros y fs. simpl. rewrite lookup_insert.
    destruct (decide (x = y)) as [<-|_]; [congruence | apply Hr].
Qed.

Lemma pool_step_invariant (image_paths : list string) (a : action) (p : pool face) :
  pool_invariant process_image_file image_paths p →
  pool_invariant process_image_file image_paths (pool_step process_image_file a p).
Proof.
  intros Hinv. destruct p as [ws self]. destruct a as [i|]; simpl.
  - destruct (ws !! i) as [w|] eqn:Hi; [|exact Hinv].
    destruct w as [| |x|].
    + simpl. destruct (processing self) eqn:Hproc; simpl.
      * destruct (bool_decide (processing_queue self = [])) eqn:Hemp; simpl.
        -- apply bool_decide_eq_true in Hemp.
           eapply invariant_idle_move; eauto.
        -- eapply invariant_idle_move; eauto. discriminate.
      * eapply invariant_idle_move; eauto.
    + simpl. destruct (processing_queue self) as [|x rest] eqn:Hqueue.
      * eapply invariant_idle_move; eauto.
      * now apply invariant_claim.
    + pose proof (invariant_done image_paths ws self i x Hi Hinv) as Hdone.
      destruct (worker_step process_image_file (holding x) self). exact Hdone.
    + simpl. now rewrite list_insert_id.
  - destruct Hinv as [Hc Hp Hcov Hq Hh Hk Hr]. simpl in *.
    constructor; simpl; auto.
Qed.

Lemma run_pool_invariant (image_paths : list string) (schedule : list action)
    (p : pool face) :
  pool_invariant process_image_file image_paths p →
  pool_invariant process_image_file image_paths (run_pool process_image_file schedule p).
Proof.
  revert p. induction schedule as [|a schedule IH]; intros p Hinv; [exact Hinv|].
  simpl. apply IH. now apply pool_step_invariant.
Qed.

(** Only [stop_processing] clears the flag. *)
Lemma run_pool_processing (schedule : list action) (p : pool face) :
  stop ∉ schedule →
  processing (run_pool process_image_file schedule p).2 = processing p.2.
Proof.
  revert p. induction schedule as [|a schedule IH]; intros p Hno; [reflexivity|].
  apply not_elem_of_cons in Hno as [Ha Hno]. simpl. rewrite IH by assumption.
  destruct a as [i|]; [|contradiction]. destruct p as [ws self]. simpl.
  destruct (ws !! i) as [w|]; [|reflexivity].
  destruct w as [| |x|]; simpl.
  - destruct (processing self && _); reflexivity.
  - destruct (processing_queue self); reflexivity.
  - destruct (process_image_file x); reflexivity.
  - reflexivity.
Qed.

Lemma all_finished_spec (ws : list worker) :
  all_finished ws = true ↔ ∀ w, w ∈ ws → w = finished.
Proof.
  unfold all_finished. rewrite forallb_forall. split.
  - intros Hall w Hw. apply list_elem_of_In in Hw. specialize (Hall w Hw).
    now destruct w.
  - intros Hall w Hw. apply list_elem_of_In in Hw. now rewrite (Hall w Hw).
Qed.

Lemma all_finished_holding_count (ws : list worker) :
  all_finished ws = true → holding_count ws = 0.
Proof.
  unfold holding_count. induction ws as [|w ws IH]; [reflexivity|].
  simpl. destruct w; try discriminate. intros Hall. now rewrite IH.
Qed.

Lemma holding_count_start (n : nat) : holding_count (replicate n at_loop_test) = 0.
Proof. unfold holding_count. induction n as [|n IH]; simpl; [reflexivity | exact IH]. Qed.

(** A batch that nobody stops, started on an empty queue: when the call
    returns, every input has been counted once, the paths whose processing
    returned are the keys of the mapping, and the paths whose processing
    raised are absent from it. *)
Lemma dynamic_batch_complete (self self' : processor face)
    (image_paths : list string) (schedule : list action)
    (m : gmap string (list face)) :
  GPU_AVAILABLE = true →
  processing_queue self = [] →
  stop ∉ schedule →
  process_dynamic_batch GPU_AVAILABLE MAX_CONCURRENT_IMAGES process_image_file
    self image_paths schedule = Some (inr m, self') →
  completed_count self' = length image_paths ∧
  processing_queue self' = [] ∧
  ∀ p, m !! p =
       if decide (p ∈ image_paths)
       then match process_image_file p with
            | inr faces => Some faces
            | inl _ => None
            end
       else None.
Proof.
  intros -> Hempty Hno Hrun. unfold process_dynamic_batch in Hrun. simpl in Hrun.
  rewrite Hempty in Hrun. simpl in Hrun.
  destruct (bool_decide _) eqn:Hw; [discriminate|].
  apply bool_decide_eq_false in Hw.
  match type of Hrun with
  | context [run_pool _ ?s ?p0] =>
      pose proof (run_pool_invariant image_paths s p0) as Hinv;
      pose proof (run_pool_processing s p0 Hno) as Hproc;
      destruct (run_pool process_image_file s p0) as [ws self2]
  end.
  destruct (all_finished ws) eqn:Hall; [|discriminate].
  injection Hrun as <- <-. simpl in Hproc.
  destruct Hinv as [Hc Hp Hcov Hq Hh Hk Hr].
  { constructor; simpl.
    - rewrite holding_count_start. lia.
    - left. exists at_loop_test. split; [|discriminate].
      destruct (Nat.min _ 16) as [|k]; [contradiction|]. now left.
    - intros x Hx. now left.
    - auto.
    - intros x Hx. apply elem_of_replicate in Hx as [Hx _]. discriminate.
    - intros x [fs Hx]. simpl in Hx. now rewrite lookup_empty in Hx.
    - intros x fs Hx. simpl in Hx. now rewrite lookup_empty in Hx. }
  simpl in *.
  rewrite all_finished_holding_count in Hc by assumption.
  rewrite all_finished_spec in Hall.
  assert (Hq0 : processing_queue self2 = []).
  { destruct Hp as [(w & Hw1 & Hw2)|[?|Hstop]]; [|assumption|congruence].
    destruct Hw2. now apply Hall. }
  rewrite Hq0 in *. simpl in Hc.
  split; [lia|]. split; [reflexivity|].
  intros p. destruct (decide (p ∈ image_paths)) as [Hin|Hnin].
  - destruct (Hcov p Hin) as [Hin'|[Hheld|Hset]].
    + inversion Hin'.
    + apply Hall in Hheld. discriminate.
    + unfold settled in Hset. destruct (process_image_file p) as [e|faces] eqn:Hp'.
      * destruct (results self2 !! p) as [fs|] eqn:Hl; [|reflexivity].
        apply Hr in Hl. congruence.
      * exact Hset.
  - destruct (results self2 !! p) as [fs|] eqn:Hl; [|reflexivity].
    destruct Hnin. apply Hk. eauto.
Qed.

(** *** The call returns *)

Lemma run_pool_cons (a : action) (schedule : list action) (p : pool face) :
  run_pool process_image_file (a :: schedule) p
  = run_pool process_image_file schedule (pool_step process_image_file a p).
Proof. reflexivity. Qed.

Lemma run_pool_app (s1 s2 : list action) (p : pool face) :
  run_pool process_image_file (s1 ++ s2) p
  = run_pool process_image_file s2 (run_pool process_image_file s1 p).
Proof. apply fold_left_app. Qed.

(** Alone, worker 0 empties a queue of [k] paths in [3 * k + 1] steps. *)
Lemma solo_worker_drains (k : nat) (ws : list worker) (self : processor face) :
  processing self = true →
  length (processing_queue self) = k →
  ∃ self',
    run_pool process_image_file (replicate (3 * k + 1) (run 0)) (at_loop_test :: ws, self)
    = (finished :: ws, self') ∧
    processing_queue self' = [].
Proof.
  revert self. induction k as [|k IH]; intros self Hproc Hlen.
  - apply nil_length_inv in Hlen. exists self.
    change (3 * 0 + 1) with 1. cbn [replicate]. rewrite run_pool_cons.
    unfold pool_step. simpl. rewrite Hproc, Hlen. simpl. auto.
  - destruct (processing_queue self) as [|x rest] eqn:Hq; [discriminate|].
    injection Hlen as Hlen.
    replace (3 * S k + 1) with (S (S (S (3 * k + 1)))) by lia.
    cbn [replicate]. rewrite !run_pool_cons.
    assert (H1 : pool_step process_image_file (run 0) (at_loop_test :: ws, self)
                 = (at_get_nowait :: ws, self)).
    { unfold pool_step. simpl. now rewrite Hproc, Hq. }
    rewrite H1.
    assert (H2 : pool_step process_image_file (run 0) (at_get_nowait :: ws, self)
                 = (holding x :: ws,
                    {| processing_queue := rest; results := results self;
                       completed_count := completed_count self;
                       total_count := total_count self; processing := processing self |})).
    { unfold pool_step. simpl. now rewrite Hq. }
    rewrite H2.
    match goal with
    | |- context [pool_step _ (run 0) (holding x :: ws, ?s1)] =>
        assert (H3 : ∃ self3,
                  pool_step process_image_file (run 0) (holding x :: ws, s1)
                  = (at_loop_test :: ws, self3) ∧
                  processing self3 = true ∧ processing_queue self3 = rest)
    end.
    { unfold pool_step. simpl.
      destruct (process_image_file x); eexists; (split; [reflexivity|]); simpl; auto. }
    destruct H3 as (self3 & -> & Hproc3 & Hq3).
    apply IH; [exact Hproc3 | now rewrite Hq3].
Qed.

(** On an empty queue each waiting worker returns at its next step. *)
Lemma idle_workers_return (n : nat) (pre : list worker) (self : processor face) :
  processing_queue self = [] →
  run_pool process_image_file (map run (seq (length pre) n))
    (pre ++ replicate n at_loop_test, self)
  = (pre ++ replicate n finished, self).
Proof.
  intros Hq. revert pre. induction n as [|n IH]; intros pre; [reflexivity|].
  cbn [seq map replicate]. rewrite run_pool_cons.
  assert (Hstep : pool_step process_image_file (run (length pre))
                    (pre ++ at_loop_test :: replicate n at_loop_test, self)
                  = ((pre ++ [finished]) ++ replicate n at_loop_test, self)).
  { unfold pool_step. cbn [fst snd].
    rewrite list_lookup_middle by reflexivity. simpl.
    rewrite Hq, andb_false_r.
    rewrite <- (Nat.add_0_r (length pre)), insert_app_r. simpl.
    now rewrite <- app_assoc. }
  rewrite Hstep.
  replace (S (length pre)) with (length (pre ++ [finished]))
    by (rewrite length_app; simpl; lia).
  rewrite IH. now rewrite <- app_assoc.
Qed.

Lemma all_finished_replicate (n : nat) : all_finished (replicate n finished) = true.
Proof. induction n as [|n IH]; [reflexivity | exact IH]. Qed.

(** A non-empty batch on the accelerated path returns under the schedule
    in which worker 0 does all the work. *)
Lemma dynamic_batch_returns (self : processor face) (image_paths : list string) :
  GPU_AVAILABLE = true →
  processing_queue self = [] →
  MAX_CONCURRENT_IMAGES ≠ 0 →
  image_paths ≠ [] →
  ∃ m self',
    process_dynamic_batch GPU_AVAILABLE MAX_CONCURRENT_IMAGES process_image_file
      self image_paths
      (solo_schedule (length image_paths)
         (Nat.min (Nat.min MAX_CONCURRENT_IMAGES (length image_paths)) 16))
    = Some (inr m, self').
Proof.
  intros -> Hempty Hmax Hne. unfold process_dynamic_batch. simpl.
  rewrite Hempty. simpl.
  assert (Hk : length image_paths ≠ 0) by (destruct image_paths; [contradiction | discriminate]).
  destruct (Nat.min (Nat.min MAX_CONCURRENT_IMAGES (length image_paths)) 16)
    as [|w] eqn:Hw; [lia|].
  rewrite bool_decide_false by discriminate.
  unfold solo_schedule. rewrite run_pool_app. cbn [replicate].
  match goal with
  | |- context [run_pool _ (replicate _ (run 0)) (at_loop_test :: ?ws, ?s1)] =>
      destruct (solo_worker_drains (length image_paths) ws s1 eq_refl eq_refl)
        as (self2 & -> & Hq2)
  end.
  replace (S w - 1) with w by lia.
  change (finished :: replicate w at_loop_test)
    with ([finished] ++ replicate w at_loop_test).
  change 1 with (length [@finished]).
  rewrite idle_workers_return by exact Hq2.
  simpl. rewrite all_finished_replicate. eauto.
Qed.

End Batch.

(** C2. Two paths on the accelerated path with "a.jpg" failing, one
    worker doing all the work: both items are counted as completed, yet the
    returned mapping has the single key "b.jpg", while the sequential path
    gives "a.jpg" the empty list and returns two keys. *)
Theorem dynamic_batch_drops_failed_item :
  process_dynamic_batch true 4 (fails_on "a.jpg" [7]) (__init__ (face:=nat))
    ["a.jpg"; "b.jpg"] (solo_schedule 2 2)
  = Some (inr {["b.jpg" := [7]]},
          {| processing_queue := []; results := {["b.jpg" := [7]]};
             completed_count := 2; total_count := 2; processing := true |}) ∧
  ({["b.jpg" := [7]]} : gmap string (list nat)) !! "a.jpg" = None ∧
  size ({["b.jpg" := [7]]} : gmap string (list nat)) = 1 ∧
  _process_sequential (fails_on "a.jpg" [7]) ["a.jpg"; "b.jpg"]
  = {["a.jpg" := []; "b.jpg" := [7]]}.
Proof.
  split; [vm_compute; reflexivity|].
  split; [reflexivity|].
  split; [apply map_size_singleton|].
  vm_compute; reflexivity.
Qed.

(** An empty batch on the accelerated path asks the executor for zero
    workers, which it refuses. *)
Lemma dynamic_batch_empty_raises :
  process_dynamic_batch true 4 (fails_on "a.jpg" [7]) (__init__ (face:=nat)) [] []
  = Some (raise "ValueError" "max_workers must be greater than 0",
          {| processing_queue := []; results := ∅; completed_count := 0;
             total_count := 0; processing := true |}).
Proof. reflexivity. Qed.

End BatchFacts.

(** ** The theorems on concrete inputs *)

Module Scenarios.
Import GpuSimilarity App SimilarityFacts AppFacts CompareFacts.


(** C3 in the same runtime: call 0 falls back, call 1 is CuPy's again. *)
Lemma backend_failure_falls_back_to_numpy_witness :
  cosine_similarity_batch (cupy_oom_once [0.5%float]) on_cupy 0 [1; 0]%float
    (Arr2 2 [[2; 0]]%float)
  = _numpy_cosine_similarity [1; 0]%float (Arr2 2 [[2; 0]]%float) ∧
  returns (cosine_similarity_batch (cupy_oom_once [0.5%float]) on_cupy 0
             [1; 0]%float (Arr2 2 [[2; 0]]%float)) ∧
  cosine_similarity_batch (cupy_oom_once [0.5%float]) on_cupy 1 [1; 0]%float
    (Arr2 2 [[2; 0]]%float) = inr [0.5%float].
Proof.
  destruct (backend_failure_falls_back_to_numpy (cupy_oom_once [0.5%float]) on_cupy 0
              [1; 0]%float (Arr2 2 [[2; 0]]%float)) as (Hfall & Hret & Hnext).
  { left. split; [reflexivity|]. split; [reflexivity|]. eexists. reflexivity. }
  split; [exact Hfall|]. split; [exact Hret|].
  apply Hnext; [intros _; reflexivity | intros Hd; discriminate Hd].
Defined.

(** C10 on a query of three entries against rows of two. *)
Lemma numpy_failure_returns_zeros_witness :
  cosine_similarity_batch numpy_only on_numpy 0 [1; 0; 0]%float
    (Arr2 2 [[2; 0]; [0; 1]]%float) = inr (np_zeros 2) ∧
  length (np_zeros 2 : list float) = 2 ∧
  Forall (λ x, x = f0) (np_zeros 2 : list float).
Proof.
  apply (numpy_failure_returns_zeros numpy_only on_numpy 0 [1; 0; 0]%float
           (Arr2 2 [[2; 0]; [0; 1]]%float)).
  - exact I.
  - eexists. reflexivity.
Defined.

(** The zeros of a failure are the scores of a candidate orthogonal to
    the query. *)
Lemma zeros_of_failure_look_genuine :
  cosine_similarity_batch numpy_only on_numpy 0 [1; 0; 0]%float (Arr2 2 [[0; 1]]%float)
  = inr [0%float] ∧
  raises (numpy_try [1; 0; 0]%float (Arr2 2 [[0; 1]]%float)) ∧
  cosine_similarity_batch numpy_only on_numpy 0 [1; 0]%float (Arr2 2 [[0; 1]]%float)
  = inr [0%float] ∧
  numpy_try [1; 0]%float (Arr2 2 [[0; 1]]%float) = inr [0%float].
Proof.
  split; [vm_compute; reflexivity|]. split; [eexists; reflexivity|].
  split; vm_compute; reflexivity.
Qed.

(** C4 on a queue that stays full and on one that never answers. *)
Lemma process_photo_backpressure_witness :
  (process_photo true (stuck_queue (F:=float) 101) (raise "BadRequest" "not JSON")
   = ({| status_code := 503;
         json := json_error "Service overloaded, please try again later" |}, [])) ∧
  (process_photo false (stuck_queue (F:=float) 0)
     (inr {| file_reference := Some "/photos/a.jpg"; photoPath := None |})
   = ({| status_code := 503;
         json := json_error "Service overloaded, please try again later" |},
      ensure_pool false ++ [put "/photos/a.jpg" 5])) ∧
  (process_photo true (silent_queue (F:=float) 100)
     (inr {| file_reference := None; photoPath := Some "/photos/a.jpg" |})
   = ({| status_code := 504; json := json_error "Processing timeout" |},
      ensure_pool true ++ [put "/photos/a.jpg" 5; get_result 120])).
Proof.
  destruct (process_photo_backpressure (F:=float)) as (_ & Hover & Hfull & Hlate).
  split; [|split].
  - apply Hover. simpl. unfold overload_qsize. lia.
  - apply Hfull; [intros Hq; discriminate Hq | reflexivity | discriminate | reflexivity].
  - apply Hlate; [intros _; simpl; unfold overload_qsize; lia | reflexivity
                  | discriminate | reflexivity | reflexivity].
Defined.



(** What the two jobs are answered with. *)
Lemma two_jobs_delivered :
  delivered (process_worker (unreachable (F:=float)) two_jobs) =
  [ (1, error "GridFS processing error: connection refused");
    (2, error "File processing error: no such file") ].
Proof. reflexivity. Qed.

(** C6, against the wording of the specification: a token of 24 uppercase
    hexadecimal digits is not a lowercase token, so the rule as worded
    sends it to the file system; the worker asks the image service for
    it. *)
Lemma uppercase_token_goes_to_lookup :
  (handle_item (unreachable (F:=float)) "0123456789ABCDEF01234567").1 =
    [http_get "http://localhost:5000/api/images/0123456789ABCDEF01234567" 30] ∧
  spec_resolution "0123456789ABCDEF01234567" = read_local "0123456789ABCDEF01234567".
Proof. split; reflexivity. Qed.


(** What the request is answered with: "b", the copy of the selfie's
    embedding, scores 1 and comes first. *)
Lemma two_candidates_answer :
  (compare_faces (one_face [3; 4]%float 1%float) numpy_only None 0 two_candidates).1 =
    {| status_code := 200;
       json := json_matches [("b", 1%float); ("a", 0x1.999999999999ap-1%float)] |}.
Proof. vm_compute. reflexivity. Qed.

(** With a selfie whose embedding is (1, 2) the copy "b" scores just
    below 1 and its multiple "a", listed after it, a little more: rounding
    puts the multiple first. *)
Lemma multiple_before_copy :
  (compare_faces (one_face [1; 2]%float 1%float) numpy_only None 0 copy_then_multiple).1 =
    {| status_code := 200;
       json := json_matches [("a", 0x1.fffffffffffffp-1%float);
                             ("b", 0x1.ffffffffffffep-1%float)] |}.
Proof. vm_compute. reflexivity. Qed.

(** The score of a vector against itself and against a multiple of it, in
    binary64 on the numpy path: 1 for (3, 4); just below 1 for (1, 2), and
    another value against (3, 6); NaN for (2^600, 2^600), whose dot product
    with itself overflows. *)
Lemma self_similarity_in_binary64 :
  _numpy_cosine_similarity [3; 4]%float (Arr2 2 [[3; 4]]%float) = inr [1%float] ∧
  _numpy_cosine_similarity [1; 2]%float (Arr2 2 [[1; 2]; [3; 6]]%float)
    = inr [0x1.ffffffffffffep-1; 0x1.fffffffffffffp-1]%float ∧
  _numpy_cosine_similarity [0x1p600; 0x1p600]%float (Arr2 2 [[0x1p600; 0x1p600]]%float)
    = inr [nan].
Proof. repeat split; vm_compute; reflexivity. Qed.


End Scenarios.

(** ** More on the similarity engine *)

Module EngineFacts.
Import GpuSimilarity SimilarityFacts.

Section AnyScalar.
Context {F : Type} `{Scalar F}.

Variable rt : Runtime F.

(** X2. A calculator that the constructor built is consistent with the
    runtime: the device "cupy" means that CuPy is installed and passed the
    probe, the device "torch" that PyTorch is installed and reported CUDA.
    So for such a calculator the device alone decides which function
    [cosine_similarity_batch] calls. *)
Theorem constructed_calculator_dispatch (c : calculator) :
  __init__ rt = inr c →
  (device c = cupy →
   CUPY_AVAILABLE rt = true ∧ gpu_available c = true ∧ returns (cupy_norm_test rt)) ∧
  (device c = torch →
   TORCH_AVAILABLE rt = true ∧ torch_cuda_is_available rt in_get_best_device = inr true) ∧
  (∀ n q M,
     cosine_similarity_batch rt c n q M =
     match device c with
     | cupy => _cupy_cosine_similarity rt n q M
     | torch => _torch_cosine_similarity rt n q M
     | numpy => _numpy_cosine_similarity q M
     end).
Proof.
  unfold __init__, _get_best_device, _check_gpu_availability, cosine_similarity_batch.
  destruct (CUPY_AVAILABLE rt) eqn:Hcupy; simpl.
  - destruct (cupy_norm_test rt) as [e|u] eqn:Htest; simpl.
    + destruct (TORCH_AVAILABLE rt) eqn:Htorch; simpl.
      * destruct (torch_cuda_is_available rt in_get_best_device) as [e'|[|]];
          simpl; intros [= <-]; simpl; repeat split; try discriminate; auto.
      * intros [= <-]; simpl; repeat split; discriminate.
    + intros [= <-]; simpl. repeat split; try discriminate; eauto. eexists; eauto.
  - destruct (TORCH_AVAILABLE rt) eqn:Htorch; simpl.
    + destruct (torch_cuda_is_available rt in_get_best_device) as [e'|[|]];
        simpl; intros [= <-]; simpl; repeat split; try discriminate; auto.
    + intros [= <-]; simpl; repeat split; discriminate.
Qed.

(** X23. [cosine_similarity_batch] never raises, on any device and
    whatever the accelerator library does: each accelerated function falls
    back to the numpy function, and that one answers zeros when its own
    computation raises. On the numpy path the result has one entry per
    element of the first axis of the stored array. *)
Theorem cosine_similarity_batch_never_raises (self : calculator) (n : nat)
    (q : list F) (M : ndarray F) :
  returns (cosine_similarity_batch rt self n q M) ∧
  (on_numpy_path rt self n q M → wf_ndarray M →
   ∃ sims, cosine_similarity_batch rt self n q M = inr sims ∧ length sims = py_len M).
Proof.
  split.
  - unfold cosine_similarity_batch, _cupy_cosine_similarity, _torch_cosine_similarity.
    destruct (bool_decide (device self = cupy) && CUPY_AVAILABLE rt).
    { destruct (cupy_try rt n q M); [apply numpy_returns | eexists; reflexivity]. }
    destruct (bool_decide (device self = torch) && TORCH_AVAILABLE rt).
    { destruct (torch_try rt n q M); [apply numpy_returns | eexists; reflexivity]. }
    apply numpy_returns.
  - intros Hpath Hwf. rewrite batch_on_numpy_path by assumption.
    destruct M as [v|d rows].
    + exists (np_zeros (length v)). split; [reflexivity | apply length_replicate].
    + destruct (decide (length q = d)) as [Hq|Hq].
      * exists (map (cosine q) rows). unfold _numpy_cosine_similarity.
        rewrite numpy_try_matrix by assumption. split; [reflexivity | apply length_map].
      * exists (np_zeros (length rows)).
        rewrite numpy_zeros_on_raise by now apply dimension_mismatch_raises.
        split; [reflexivity | apply length_replicate].
Qed.

(** X24. The constructor raises in one situation only: CuPy is not
    selected (it is missing or failed its probe), PyTorch is installed, and
    [torch.cuda.is_available()] raises when [_get_best_device] calls it.
    Nothing that happens in [_check_gpu_availability] makes it raise. *)
Theorem constructor_raises_only_in_get_best_device :
  raises (__init__ rt) ↔
  CUPY_AVAILABLE rt && _check_gpu_availability rt = false ∧
  TORCH_AVAILABLE rt = true ∧
  raises (torch_cuda_is_available rt in_get_best_device).
Proof.
  unfold __init__, _get_best_device.
  destruct (CUPY_AVAILABLE rt && _check_gpu_availability rt); cbn [py_bind].
  { split; [intros [e He]; discriminate He | intros [Hf _]; discriminate Hf]. }
  destruct (TORCH_AVAILABLE rt); cbn [py_bind].
  2: { split; [intros [e He]; discriminate He | intros (_ & Hf & _); discriminate Hf]. }
  destruct (torch_cuda_is_available rt in_get_best_device) as [e|[|]]; cbn [py_bind].
  - split; [intros _; repeat split; eexists; reflexivity | intros _; eexists; reflexivity].
  - split; [intros [e He]; discriminate He | intros (_ & _ & [e He]); discriminate He].
  - split; [intros [e He]; discriminate He | intros (_ & _ & [e He]); discriminate He].
Qed.

End AnyScalar.

(** The constructor on a runtime whose CuPy passes the probe. *)
Lemma constructed_calculator_dispatch_witness :
  __init__ (cupy_oom_once [1%float]) = inr on_cupy ∧
  cosine_similarity_batch (cupy_oom_once [1%float]) on_cupy 1 [1%float] (Arr2 1 [[1%float]])
  = _cupy_cosine_similarity (cupy_oom_once [1%float]) 1 [1%float] (Arr2 1 [[1%float]]).
Proof.
  split; [reflexivity|].
  exact (proj2 (proj2 (constructed_calculator_dispatch (cupy_oom_once [1%float]) on_cupy
                         eq_refl)) 1 [1%float] (Arr2 1 [[1%float]])).
Defined.

End EngineFacts.

(** ** More on the service *)

Module ServiceFacts.
Import GpuSimilarity App AppFacts.

(** *** Strings *)

Lemma prefix_refl (s : string) : String.prefix s s = true.
Proof.
  induction s as [|c s IH]; [reflexivity|].
  simpl. destruct (ascii_dec c c); [exact IH | contradiction].
Qed.

Lemma str_contains_suffix (needle a : string) : str_contains needle (a +:+ needle) = true.
Proof.
  induction a as [|c a IH].
  - destruct needle; simpl; [reflexivity|].
    destruct (ascii_dec a a); [|contradiction]. now rewrite prefix_refl.
  - simpl. rewrite IH. apply orb_true_r.
Qed.

Lemma comma_free_cons (c : ascii) (s : string) :
  comma_free (String c s) → Ascii.eqb c "," = false ∧ comma_free s.
Proof.
  unfold comma_free. simpl. intros Hc. apply andb_true_iff in Hc as [Hc Hs].
  split; [now apply negb_true_iff in Hc | exact Hs].
Qed.

Lemma after_comma_free (s : string) : comma_free s → after_comma s = None.
Proof.
  induction s as [|c s IH]; [reflexivity|].
  intros Hc. apply comma_free_cons in Hc as [Hc Hs]. simpl. rewrite Hc. now apply IH.
Qed.

Lemma after_comma_app (pre rest : string) :
  comma_free pre → after_comma (pre +:+ "," +:+ rest) = Some rest.
Proof.
  induction pre as [|c pre IH]; [reflexivity|].
  intros Hc. apply comma_free_cons in Hc as [Hc Hs]. simpl. rewrite Hc. now apply IH.
Qed.

Lemma upto_comma_free (s : string) : comma_free s → upto_comma s = s.
Proof.
  induction s as [|c s IH]; [reflexivity|].
  intros Hc. apply comma_free_cons in Hc as [Hc Hs]. simpl. rewrite Hc.
  now rewrite IH.
Qed.

Lemma upto_comma_app (payload rest : string) :
  comma_free payload → upto_comma (payload +:+ "," +:+ rest) = payload.
Proof.
  induction payload as [|c payload IH]; [reflexivity|].
  intros Hc. apply comma_free_cons in Hc as [Hc Hs]. simpl. rewrite Hc.
  now rewrite IH.
Qed.

(** X7. What [compare_faces] hands to the base64 decoder: a selfie
    without a comma as it is; of a data URL "prefix,payload" the payload;
    and with a second comma only what stands between the first two. *)
Theorem selfie_payload (pre payload rest : string) :
  comma_free pre → comma_free payload →
  base64_part pre = pre ∧
  base64_part (pre +:+ "," +:+ payload) = payload ∧
  base64_part (pre +:+ "," +:+ payload +:+ "," +:+ rest) = payload.
Proof.
  intros Hpre Hpay. unfold base64_part. repeat split.
  - now rewrite after_comma_free.
  - rewrite after_comma_app by assumption. now apply upto_comma_free.
  - rewrite after_comma_app by assumption. now apply upto_comma_app.
Qed.

Lemma selfie_payload_witness :
  base64_part "data:image/jpeg;base64" = "data:image/jpeg;base64" ∧
  base64_part "data:image/jpeg;base64,/9j/4AAQ" = "/9j/4AAQ" ∧
  base64_part "data:image/jpeg;base64,/9j/4AAQ,tail" = "/9j/4AAQ".
Proof.
  apply (selfie_payload "data:image/jpeg;base64" "/9j/4AAQ" "tail"); reflexivity.
Defined.

Section Worker.
Context {F : Type} `{Scalar F} {image : Type}.
Variable co : Collaborators F image.

Lemma http_is_no_token (s : string) :
  startswith s "http" = true →
  str_all (λ c, str_contains (String c EmptyString) "0123456789abcdef") (str_lower s) = false.
Proof.
  unfold startswith. destruct s as [|c s]; [discriminate|].
  cbn [String.prefix]. intros Hp.
  destruct (ascii_dec "h"%char c) as [<-|]; [reflexivity | discriminate Hp].
Qed.

(** X8. A reference that starts with "http" and does not contain
    "cloudinary.com" is never fetched: the worker hands it to
    [process_image_file] as a local path. *)
Theorem other_url_is_read_as_local_path (photo_path : string) :
  startswith photo_path "http" = true →
  str_contains "cloudinary.com" photo_path = false →
  handle_item co photo_path =
    ([read_local photo_path],
     [branch "File processing error: " (process_image_file co photo_path)]).
Proof.
  intros Hhttp Hhost. unfold handle_item.
  rewrite Hhttp, Hhost, (http_is_no_token _ Hhttp), !andb_false_r. reflexivity.
Qed.

End Worker.

Lemma other_url_is_read_as_local_path_witness :
  handle_item (@unreachable float) "https://example.com/a.jpg" =
    ([read_local "https://example.com/a.jpg"],
     [error "File processing error: no such file"]).
Proof.
  apply (other_url_is_read_as_local_path (@unreachable float) "https://example.com/a.jpg");
    reflexivity.
Defined.

End ServiceFacts.

(** ** The request path of /process-photo *)

Module RequestFacts.
Import GpuSimilarity App AppFacts.

Section Requests.
Context {F : Type} `{Scalar F} {image : Type}.
Variable co : Collaborators F image.

(** X9. The shutdown signal ends the worker: the jobs queued behind it
    are neither fetched nor answered. *)
Theorem nothing_after_shutdown (before behind : list got) :
  delivered (process_worker co (before ++ shutdown_signal :: behind)) =
    delivered (process_worker co (before ++ [shutdown_signal])) ∧
  calls (process_worker co (before ++ shutdown_signal :: behind)) =
    calls (process_worker co (before ++ [shutdown_signal])) ∧
  status (process_worker co (before ++ shutdown_signal :: behind)) = exited.
Proof.
  induction before as [|g before (IHd & IHc & IHs)]; [repeat split|].
  destruct g as [p rq| |]; [|repeat split|exact (conj IHd (conj IHc IHs))].
  cbn [app process_worker]. destruct (handle_item co p) as [cs puts]. cbn.
  now rewrite IHd, IHc, IHs.
Qed.

(** X10. The queue discipline of [process_photo]. Whatever the queues
    and the request, the handler first sets up the pool if it is the first
    request and then does one of three things: nothing (the answers 400,
    500 and the 503 of the quick check); one [put] of a non-empty path
    that finds no room (503); or that [put] followed by one wait for the
    result (200, 500 or 504 according to what arrives). *)
Theorem process_photo_queue_discipline (has_queue : bool) (env : QueueEnv F)
    (request_json : PyResult photo_request) :
  ∃ tail,
    (process_photo has_queue env request_json).2 = ensure_pool has_queue ++ tail ∧
    ((tail = [] ∧
      (status_code (process_photo has_queue env request_json).1 = 400 ∨
       status_code (process_photo has_queue env request_json).1 = 500 ∨
       status_code (process_photo has_queue env request_json).1 = 503)) ∨
     (∃ data path,
        request_json = inr data ∧
        py_or (file_reference data) (photoPath data) = Some path ∧
        path ≠ EmptyString ∧
        ((tail = [put path 5] ∧ put_done env 5 = false ∧
          status_code (process_photo has_queue env request_json).1 = 503) ∨
         (tail = [put path 5; get_result 120] ∧ put_done env 5 = true ∧
          status_code (process_photo has_queue env request_json).1 =
            match result_within env 120 with
            | Some (success _) => 200
            | Some (error _) => 500
            | None => 504
            end)))).
Proof.
  unfold process_photo.
  destruct (overload_qsize <? (if has_queue then qsize env else 0))%nat.
  { exists []. rewrite app_nil_r. split; [reflexivity|]. left. auto. }
  destruct request_json as [e|data].
  { exists []. rewrite app_nil_r. split; [reflexivity|]. left. auto. }
  destruct (py_or (file_reference data) (photoPath data)) as [[|ch path]|] eqn:Hpath;
    cbn [py_not].
  1, 3: exists []; rewrite app_nil_r; split; [reflexivity|]; left; auto.
  change (default EmptyString (Some (String ch path))) with (String ch path).
  unfold put_timeout, result_timeout.
  destruct (put_done env 5) eqn:Hput.
  - exists [put (String ch path) 5; get_result 120]. split.
    + destruct (result_within env 120) as [[faces|msg]|]; cbn [snd];
        now rewrite <- app_assoc.
    + right. exists data, (String ch path).
      split; [reflexivity|]. split; [exact Hpath|]. split; [discriminate|].
      right. split; [reflexivity|]. split; [reflexivity|].
      destruct (result_within env 120) as [[faces|msg]|]; reflexivity.
  - exists [put (String ch path) 5]. split; [reflexivity|].
    right. exists data, (String ch path).
    split; [reflexivity|]. split; [exact Hpath|]. split; [discriminate|].
    left. auto.
Qed.

(** The answer to a request whose job a worker serves in time. *)
Lemma served_response (has_queue : bool) (depth : nat) (data : photo_request)
    (path : string) :
  (has_queue = true → depth ≤ overload_qsize) →
  py_or (file_reference data) (photoPath data) = Some path →
  path ≠ EmptyString →
  (process_photo has_queue (served_by_worker co depth path) (inr data)).1 =
    match head (handle_item co path).2 with
    | Some (success faces) => {| status_code := 200; json := json_faces faces |}
    | Some (error msg) => {| status_code := 500; json := json_failure msg |}
    | None => {| status_code := 504; json := json_error "Processing timeout" |}
    end.
Proof.
  intros Hdepth Hpath Hne. unfold process_photo. rewrite Hpath.
  replace (overload_qsize <? _)%nat with false.
  - destruct path as [|ch path]; [contradiction|]. cbn [py_not].
    cbn [served_by_worker put_done result_within].
    destruct (head (handle_item co (default EmptyString (Some (String ch path)))).2)
      as [[faces|msg]|] eqn:Hhead;
      change (default EmptyString (Some (String ch path))) with (String ch path) in Hhead;
      rewrite Hhead; reflexivity.
  - symmetry. apply Nat.ltb_ge.
    destruct has_queue; cbn [served_by_worker qsize];
      [now apply Hdepth | unfold overload_qsize; lia].
Qed.

(** X11. Handler and worker together. A request with a non-empty
    reference that is admitted and whose job a worker serves in time is
    answered with what the worker put for this reference: 200 with the
    faces of a success tuple, 500 with the message of an error tuple. In
    particular every failure of the job (fetch, status, decoding, detector,
    local file) is answered 500, none is answered 200. *)
Theorem request_answer_is_worker_answer (has_queue : bool) (depth : nat)
    (data : photo_request) (path : string) :
  (has_queue = true → depth ≤ overload_qsize) →
  py_or (file_reference data) (photoPath data) = Some path →
  path ≠ EmptyString →
  ((∃ faces,
      (handle_item co path).2 = [success faces] ∧
      (process_photo has_queue (served_by_worker co depth path) (inr data)).1 =
        {| status_code := 200; json := json_faces faces |}) ∨
   (∃ msg,
      (handle_item co path).2 = [error msg] ∧
      (process_photo has_queue (served_by_worker co depth path) (inr data)).1 =
        {| status_code := 500; json := json_failure msg |})) ∧
  (job_failure co path →
   ∃ msg,
     (process_photo has_queue (served_by_worker co depth path) (inr data)).1 =
       {| status_code := 500; json := json_failure msg |}).
Proof.
  intros Hdepth Hpath Hne.
  rewrite (served_response has_queue depth data path Hdepth Hpath Hne).
  split.
  - destruct (handle_item_one_put co path) as [[faces|msg] ->]; [left|right]; eauto.
  - intros Hfail. destruct (failed_job_gets_error co path Hfail) as [msg ->]. eauto.
Qed.

(** X12. An image file in which the detector finds no face is a success
    with an empty list of faces; a detector that hands back [None] is an
    error, answered 500: the log line takes [len(faces)] before the
    [faces or []] of the success tuple is reached. *)
Theorem no_face_is_success_and_none_is_error (has_queue : bool) (depth : nat)
    (data : photo_request) (path : string) :
  (has_queue = true → depth ≤ overload_qsize) →
  py_or (file_reference data) (photoPath data) = Some path →
  path ≠ EmptyString →
  (handle_item co path).1 = [read_local path] →
  (process_image_file co path = inr (Some []) →
   (process_photo has_queue (served_by_worker co depth path) (inr data)).1 =
     {| status_code := 200; json := json_faces [] |}) ∧
  (process_image_file co path = inr None →
   (process_photo has_queue (served_by_worker co depth path) (inr data)).1 =
     {| status_code := 500;
        json := json_failure "object of type 'NoneType' has no len()" |}).
Proof.
  intros Hdepth Hpath Hne Hlocal.
  rewrite (served_response has_queue depth data path Hdepth Hpath Hne).
  assert (Hputs : (handle_item co path).2 =
                  [branch "File processing error: " (process_image_file co path)]).
  { unfold handle_item in *.
    destruct (startswith path "http" && str_contains "cloudinary.com" path);
      [discriminate Hlocal|].
    destruct (bool_decide (String.length path = 24) && _);
      [discriminate Hlocal | reflexivity]. }
  rewrite Hputs. split; intros ->; reflexivity.
Qed.

End Requests.

(** A first request for a local path that cannot be read. *)
Lemma request_answer_is_worker_answer_witness :
  (process_photo false (served_by_worker (@unreachable float) 0 "/photos/a.jpg")
     (inr {| file_reference := Some "/photos/a.jpg"; photoPath := None |})).1 =
    {| status_code := 500;
       json := json_failure "File processing error: no such file" |}.
Proof.
  destruct (request_answer_is_worker_answer (@unreachable float) false 0
              {| file_reference := Some "/photos/a.jpg"; photoPath := None |}
              "/photos/a.jpg") as [[(faces & Hputs & Hresp)|(msg & Hputs & Hresp)] _].
  - intros Hq. discriminate Hq.
  - reflexivity.
  - discriminate.
  - discriminate Hputs.
  - injection Hputs as <-. exact Hresp.
Defined.

(** A later request, by the legacy parameter, for a file without a face. *)
Lemma no_face_is_success_and_none_is_error_witness :
  (process_photo true (served_by_worker (@no_face float) 3 "/photos/a.jpg")
     (inr {| file_reference := None; photoPath := Some "/photos/a.jpg" |})).1 =
    {| status_code := 200; json := json_faces [] |}.
Proof.
  refine (proj1 (no_face_is_success_and_none_is_error (@no_face float) true 3
                   {| file_reference := None; photoPath := Some "/photos/a.jpg" |}
                   "/photos/a.jpg" _ _ _ _) _).
  - intros _. unfold overload_qsize. lia.
  - reflexivity.
  - discriminate.
  - reflexivity.
  - reflexivity.
Defined.

End RequestFacts.

(** ** More on /compare-faces *)

Module CompareAnyBackend.
Import GpuSimilarity App SimilarityFacts CompareFacts.

Section Compare.
Context {F : Type} `{Scalar F} {image : Type}.
Variable co : Collaborators F image.
Variable rt : Runtime F.

(** The pairing loop returns exactly when there are no more scores than
    candidates, and then pairs the scores with the first candidates. *)
Lemma create_matches_inv (sims : list F) (embs : list (candidate F))
    (l : list (string * F)) :
  create_matches sims embs = inr l →
  length sims ≤ length embs ∧ l = zip_with (λ e s, (photoId e, s)) embs sims.
Proof.
  revert embs l. induction sims as [|s sims IH]; intros embs l.
  - intros [= <-]. split; [simpl; lia|]. now destruct embs.
  - destruct embs as [|e embs]; [discriminate|]. simpl.
    destruct (create_matches sims embs) as [err|rest] eqn:Hrest; [discriminate|].
    intros [= <-]. destruct (IH embs rest Hrest) as [Hlen ->].
    split; [lia | reflexivity].
Qed.

(** The module global across one call of [calculate_similarities]. *)
Lemma calculate_similarities_global (g g' : option calculator) (n : nat)
    (q : list F) (M : ndarray F) (r : PyResult (list F)) :
  calculate_similarities rt g n q M = (r, g') →
  (∀ c, g = Some c → g' = Some c) ∧
  (∀ sims, r = inr sims →
     ∃ c, g' = Some c ∧ cosine_similarity_batch rt c n q M = inr sims).
Proof.
  unfold calculate_similarities, get_similarity_calculator.
  destruct g as [c|].
  - intros [= <- <-]. split; [auto|]. intros sims Hs. eauto.
  - destruct (__init__ rt) as [e|c]; intros [= <- <-].
    + split; [discriminate|]. discriminate.
    + split; [discriminate|]. intros sims Hs. eauto.
Qed.

(** X13. [compare_faces] and the calculator. A request answered 400
    leaves the module global of [gpu_similarity] as it was; a calculator
    that exists is never replaced; and after a 200 the calculator
    exists. *)
Theorem compare_faces_and_the_calculator (g : option calculator) (n : nat)
    (data : compare_request F) :
  (status_code (compare_faces co rt g n data).1 = 400 →
   (compare_faces co rt g n data).2 = g) ∧
  (∀ c, g = Some c → (compare_faces co rt g n data).2 = Some c) ∧
  (status_code (compare_faces co rt g n data).1 = 200 →
   ∃ c, (compare_faces co rt g n data).2 = Some c).
Proof.
  unfold compare_faces, compare_faces_try.
  destruct (py_not (selfieData data) || bool_decide (embeddings data = [])).
  { cbn. repeat split; auto; discriminate. }
  destruct (decode_selfie co (default EmptyString (selfieData data))) as [e|img].
  { cbn. repeat split; auto; discriminate. }
  destruct (detect_faces co img) as [e|[[|face0 others]|]].
  1, 2, 4: cbn; repeat split; auto; discriminate.
  destruct (np_array (map embedding (embeddings data))) as [e|M].
  { cbn. repeat split; auto; discriminate. }
  destruct (calculate_similarities rt g n (face_embedding face0) M) as [r g'] eqn:Hcalc.
  destruct (calculate_similarities_global _ _ _ _ _ _ Hcalc) as [Hkeep Hbuilt].
  destruct r as [e|sims]; cbn [py_bind].
  { cbn. repeat split; auto; discriminate. }
  destruct (Hbuilt sims eq_refl) as (c & Hc & _).
  destruct (create_matches sims (embeddings data)) as [e|matches]; cbn.
  - repeat split; auto; discriminate.
  - repeat split; eauto; discriminate.
Qed.

(** X14. The matches of a 200 answer, on every backend. The selfie
    showed a face, the candidates formed an array, the calculator returned
    scores, no more than there are candidates; the matches are these
    scores, each paired with the photoId of the candidate at its position,
    rearranged and none lost or added. Candidates beyond the number of
    scores are not among the matches. *)
Theorem matches_pair_the_scores (g g' : option calculator) (n : nat)
    (data : compare_request F) (matches : list (string * F)) :
  compare_faces co rt g n data =
    ({| status_code := 200; json := json_matches matches |}, g') →
  ∃ (s : string) (img : image) (face0 : face F) (others : list (face F))
    (M : ndarray F) (c : calculator) (sims : list F),
    selfieData data = Some s ∧
    decode_selfie co s = inr img ∧
    detect_faces co img = inr (Some (face0 :: others)) ∧
    np_array (map embedding (embeddings data)) = inr M ∧
    g' = Some c ∧
    cosine_similarity_batch rt c n (face_embedding face0) M = inr sims ∧
    length sims ≤ length (embeddings data) ∧
    length matches = length sims ∧
    matches ≡ₚ zip_with (λ e s, (photoId e, s)) (embeddings data) sims.
Proof.
  unfold compare_faces, compare_faces_try.
  destruct (selfieData data) as [[|ch s]|] eqn:Hselfie; cbn [py_not orb];
    try discriminate.
  destruct (bool_decide (embeddings data = [])); [discriminate|].
  change (default EmptyString (Some (String ch s))) with (String ch s).
  destruct (decode_selfie co (String ch s)) as [e|img] eqn:Hdec; [discriminate|].
  destruct (detect_faces co img) as [e|[[|face0 others]|]] eqn:Hdet; try discriminate.
  destruct (np_array (map embedding (embeddings data))) as [e|M] eqn:Harr;
    [discriminate|].
  destruct (calculate_similarities rt g n (face_embedding face0) M) as [r g''] eqn:Hcalc.
  destruct (calculate_similarities_global _ _ _ _ _ _ Hcalc) as [_ Hbuilt].
  destruct r as [e|sims]; cbn [py_bind]; [discriminate|].
  destruct (Hbuilt sims eq_refl) as (c & Hc & Hbatch).
  destruct (create_matches sims (embeddings data)) as [e|l] eqn:Hl; cbn [py_bind];
    [discriminate|].
  intros [= <- <-].
  destruct (create_matches_inv _ _ _ Hl) as [Hlen ->].
  exists (String ch s), img, face0, others, M, c, sims.
  repeat (split; [first [reflexivity | assumption]|]).
  split.
  - rewrite sort_desc_perm, length_zip_with. lia.
  - apply sort_desc_perm.
Qed.

End Compare.

(** The request of two candidates on the numpy path, in binary64. *)
Lemma matches_pair_the_scores_witness :
  ∃ (s : string) (img : unit) (face0 : face float) (others : list (face float))
    (M : ndarray float) (c : calculator) (sims : list float),
    selfieData tie_request = Some s ∧
    decode_selfie (one_face [1; 0]%float 1%float) s = inr img ∧
    detect_faces (one_face [1; 0]%float 1%float) img = inr (Some (face0 :: others)) ∧
    np_array (map embedding (embeddings tie_request)) = inr M ∧
    Some on_numpy = Some c ∧
    cosine_similarity_batch numpy_only c 0 (face_embedding face0) M = inr sims ∧
    length sims ≤ length (embeddings tie_request) ∧
    length [("a", 1%float); ("b", 1%float)] = length sims ∧
    [("a", 1%float); ("b", 1%float)] ≡ₚ
      zip_with (λ e s, (photoId e, s)) (embeddings tie_request) sims.
Proof.
  apply (matches_pair_the_scores (one_face [1; 0]%float 1%float) numpy_only None
           (Some on_numpy) 0 tie_request [("a", 1%float); ("b", 1%float)]).
  vm_compute. reflexivity.
Defined.

End CompareAnyBackend.

(** ** More on the dynamic batch scheduler *)

Module SchedulerFacts.
Import DynamicBatch BatchFacts.

Section Scheduler.
Context {face : Type}.
Variable GPU_AVAILABLE : bool.
Variable MAX_CONCURRENT_IMAGES : nat.
Variable process_image_file : string → PyResult (list face).

(** *** Without an accelerator *)

(** X15. Without an accelerator [process_dynamic_batch] leaves the
    processor as it was and returns a mapping with a key for every input
    path and for nothing else: a path maps to what [process_image_file]
    returned for it, or to the empty list if that raised. The mapping has
    one key per distinct path. *)
Theorem sequential_batch_has_every_path (self : processor face)
    (image_paths : list string) (schedule : list action) :
  GPU_AVAILABLE = false →
  ∃ m,
    process_dynamic_batch GPU_AVAILABLE MAX_CONCURRENT_IMAGES process_image_file
      self image_paths schedule = Some (inr m, self) ∧
    (∀ p, m !! p =
          if decide (p ∈ image_paths)
          then Some (match process_image_file p with inr faces => faces | inl _ => [] end)
          else None) ∧
    size m = length (remove_dups image_paths).
Proof.
  intros ->. exists (_process_sequential process_image_file image_paths).
  split; [reflexivity|]. split; [apply sequential_keys|].
  rewrite <- (size_dom (D:=gset string)).
  rewrite <- (size_list_to_set (C:=gset string)) by apply NoDup_remove_dups.
  f_equal. apply set_eq. intros p.
  rewrite elem_of_dom, elem_of_list_to_set, elem_of_remove_dups, sequential_keys.
  destruct (decide (p ∈ image_paths)) as [Hin|Hnin]; split; intros Hp;
    try assumption; try contradiction; [eauto | now destruct Hp].
Qed.

(** *** With an accelerator *)

(** What a returned batch has run. *)
Lemma accelerated_batch_run (self self' : processor face)
    (image_paths : list string) (schedule : list action)
    (m : gmap string (list face)) :
  process_dynamic_batch true MAX_CONCURRENT_IMAGES process_image_file
    self image_paths schedule = Some (inr m, self') →
  ∃ k ws,
    Nat.min (Nat.min MAX_CONCURRENT_IMAGES (length image_paths)) 16 = S k ∧
    run_pool process_image_file schedule
      (replicate (S k) at_loop_test,
       {| processing_queue := processing_queue self ++ image_paths;
          results := ∅; completed_count := 0;
          total_count := length image_paths; processing := true |}) = (ws, self') ∧
    all_finished ws = true ∧
    m = results self'.
Proof.
  unfold process_dynamic_batch. cbn [negb total_count].
  destruct (Nat.min (Nat.min MAX_CONCURRENT_IMAGES (length image_paths)) 16)
    as [|k] eqn:Hk; [discriminate|].
  rewrite bool_decide_false by discriminate.
  destruct (run_pool _ _ _) as [ws self2] eqn:Hrun.
  destruct (all_finished ws) eqn:Hall; [|discriminate].
  intros [= <- <-]. exists k, ws. auto.
Qed.

Lemma start_invariant (k total : nat) (queue : list string) :
  pool_invariant process_image_file queue
    (replicate (S k) at_loop_test,
     {| processing_queue := queue; results := ∅; completed_count := 0;
        total_count := total; processing := true |}).
Proof.
  constructor; cbn [fst snd processing_queue results completed_count processing].
  - rewrite holding_count_start. lia.
  - left. exists at_loop_test. split; [now left | discriminate].
  - intros x Hx. now left.
  - auto.
  - intros x Hx. apply elem_of_replicate in Hx as [Hx _]. discriminate.
  - intros x [fs Hx]. now rewrite lookup_empty in Hx.
  - intros x fs Hx. cbn in Hx. now rewrite lookup_empty in Hx.
Qed.

Lemma run_pool_total_count (schedule : list action) (p : pool face) :
  total_count (run_pool process_image_file schedule p).2 = total_count p.2.
Proof.
  revert p. induction schedule as [|a schedule IH]; intros p; [reflexivity|].
  rewrite run_pool_cons, IH. destruct p as [ws self]. destruct a as [i|]; simpl.
  - destruct (ws !! i) as [w|]; [|reflexivity].
    destruct w as [| |x|]; simpl.
    + destruct (processing self && _); reflexivity.
    + destruct (processing_queue self); reflexivity.
    + destruct (process_image_file x); reflexivity.
    + reflexivity.
  - reflexivity.
Qed.

(** X16. Under every schedule, stopped or not, the mapping that the
    accelerated batch returns holds nothing invented: each key is a path of
    this call or one left in the queue before it, and its value is what
    [process_image_file] returned for that path. *)
Theorem dynamic_results_are_genuine (self self' : processor face)
    (image_paths : list string) (schedule : list action)
    (m : gmap string (list face)) (p : string) (faces : list face) :
  GPU_AVAILABLE = true →
  process_dynamic_batch GPU_AVAILABLE MAX_CONCURRENT_IMAGES process_image_file
    self image_paths schedule = Some (inr m, self') →
  m !! p = Some faces →
  process_image_file p = inr faces ∧
  p ∈ processing_queue self ++ image_paths.
Proof.
  intros -> Hrun Hp.
  destruct (accelerated_batch_run _ _ _ _ _ Hrun) as (k & ws & _ & Hpool & _ & ->).
  pose proof (run_pool_invariant process_image_file _ schedule _
                (start_invariant k (length image_paths)
                   (processing_queue self ++ image_paths))) as Hinv.
  rewrite Hpool in Hinv. destruct Hinv as [_ _ _ _ _ Hk Hr]. cbn [fst snd] in *.
  split; [now apply Hr | apply Hk; eauto].
Qed.

(** X17. A batch that nobody stops works off everything in the queue,
    under every schedule: the paths of the call and the paths that an
    earlier, stopped batch left behind. The queue ends empty and the
    mapping holds exactly the paths among them whose processing returned,
    so also paths that are not among those of the call, while
    [total_count] is the number of paths of the call. *)
Theorem unstopped_batch_drains_the_queue (self self' : processor face)
    (image_paths : list string) (schedule : list action)
    (m : gmap string (list face)) :
  GPU_AVAILABLE = true →
  stop ∉ schedule →
  process_dynamic_batch GPU_AVAILABLE MAX_CONCURRENT_IMAGES process_image_file
    self image_paths schedule = Some (inr m, self') →
  total_count self' = length image_paths ∧
  processing_queue self' = [] ∧
  ∀ p, m !! p =
       if decide (p ∈ processing_queue self ++ image_paths)
       then match process_image_file p with
            | inr faces => Some faces
            | inl _ => None
            end
       else None.
Proof.
  intros -> Hno Hrun.
  destruct (accelerated_batch_run _ _ _ _ _ Hrun) as (k & ws & _ & Hpool & Hall & ->).
  pose proof (run_pool_invariant process_image_file _ schedule _
                (start_invariant k (length image_paths)
                   (processing_queue self ++ image_paths))) as Hinv.
  pose proof (run_pool_processing process_image_file schedule
                (replicate (S k) at_loop_test,
                 {| processing_queue := processing_queue self ++ image_paths;
                    results := ∅; completed_count := 0;
                    total_count := length image_paths; processing := true |}) Hno)
    as Hproc.
  pose proof (run_pool_total_count schedule
                (replicate (S k) at_loop_test,
                 {| processing_queue := processing_queue self ++ image_paths;
                    results := ∅; completed_count := 0;
                    total_count := length image_paths; processing := true |}))
    as Htotal.
  rewrite Hpool in Hinv, Hproc, Htotal. cbn [fst snd processing total_count] in *.
  destruct Hinv as [Hc Hp Hcov Hq Hh Hk Hr]. cbn [fst snd] in *.
  rewrite all_finished_holding_count in Hc by assumption.
  rewrite all_finished_spec in Hall.
  assert (Hq0 : processing_queue self' = []).
  { destruct Hp as [(w & Hw1 & Hw2)|[?|Hstop]]; [|assumption|congruence].
    destruct Hw2. now apply Hall. }
  rewrite Hq0 in *.
  split; [exact Htotal|]. split; [reflexivity|].
  intros p. destruct (decide (p ∈ processing_queue self ++ image_paths)) as [Hin|Hnin].
  - destruct (Hcov p Hin) as [Hin'|[Hheld|Hset]].
    + inversion Hin'.
    + apply Hall in Hheld. discriminate.
    + unfold settled in Hset. destruct (process_image_file p) as [e|faces] eqn:Hp'.
      * destruct (results self' !! p) as [fs|] eqn:Hl; [|reflexivity].
        apply Hr in Hl. congruence.
      * exact Hset.
  - destruct (results self' !! p) as [fs|] eqn:Hl; [|reflexivity].
    destruct Hnin. apply Hk. eauto.
Qed.

(** X18. The empty batch. Without an accelerator the call returns the
    empty mapping. With one it raises [ValueError], since the executor
    refuses zero workers, whatever is left in the queue; the processor
    stays marked as processing. *)
Theorem empty_batch (self : processor face) (schedule : list action) :
  process_dynamic_batch GPU_AVAILABLE MAX_CONCURRENT_IMAGES process_image_file
    self [] schedule =
  if GPU_AVAILABLE
  then Some (raise "ValueError" "max_workers must be greater than 0",
             {| processing_queue := processing_queue self; results := ∅;
                completed_count := 0; total_count := 0; processing := true |})
  else Some (inr ∅, self).
Proof.
  unfold process_dynamic_batch. destruct GPU_AVAILABLE; [|reflexivity].
  cbn [negb total_count length]. rewrite Nat.min_0_r, app_nil_r. reflexivity.
Qed.

Lemma solo_schedule_has_no_stop (k w : nat) : stop ∉ solo_schedule k w.
Proof.
  unfold solo_schedule. intros Hin. apply elem_of_app in Hin as [Hin|Hin].
  - apply elem_of_replicate in Hin as [Hin _]. discriminate Hin.
  - apply list_elem_of_fmap in Hin as (i & Hin & _). discriminate Hin.
Qed.

(** X25. The accelerated batch returns. For a non-empty batch on a
    processor with an empty queue and at least one worker allowed, the
    call returns under the schedule in which the first worker does all the
    work, and its mapping then holds exactly the paths whose processing
    returned. *)
Theorem accelerated_batch_returns_the_successes (self : processor face)
    (image_paths : list string) :
  GPU_AVAILABLE = true →
  processing_queue self = [] →
  MAX_CONCURRENT_IMAGES ≠ 0 →
  image_paths ≠ [] →
  ∃ m self',
    process_dynamic_batch GPU_AVAILABLE MAX_CONCURRENT_IMAGES process_image_file
      self image_paths
      (solo_schedule (length image_paths)
         (Nat.min (Nat.min MAX_CONCURRENT_IMAGES (length image_paths)) 16))
    = Some (inr m, self') ∧
    ∀ p, m !! p =
         if decide (p ∈ image_paths)
         then match process_image_file p with
              | inr faces => Some faces
              | inl _ => None
              end
         else None.
Proof.
  intros Hgpu Hempty Hmax Hne.
  destruct (dynamic_batch_returns GPU_AVAILABLE MAX_CONCURRENT_IMAGES process_image_file
              self image_paths Hgpu Hempty Hmax Hne) as (m & self' & Hrun).
  exists m, self'. split; [exact Hrun|].
  destruct (dynamic_batch_complete GPU_AVAILABLE MAX_CONCURRENT_IMAGES process_image_file
              self self' image_paths _ m Hgpu Hempty (solo_schedule_has_no_stop _ _) Hrun)
    as (_ & _ & Hkeys).
  exact Hkeys.
Qed.

End Scheduler.

End SchedulerFacts.

(** ** Stopping a batch *)

Module StopFacts.
Import DynamicBatch BatchFacts SchedulerFacts.

Section Stop.
Context {face : Type}.
Variable process_image_file : string → PyResult (list face).

Lemma claiming_count_insert (ws : list worker) (i : nat) (w w' : worker) :
  ws !! i = Some w →
  claiming_count (<[i := w']> ws) + claiming_count [w]
  = claiming_count ws + claiming_count [w'].
Proof.
  unfold claiming_count. revert i.
  induction ws as [|v ws IH]; intros [|i] Hi; simpl in *; try discriminate.
  - injection Hi as ->. lia.
  - specialize (IH i Hi). lia.
Qed.

(** One step of a stopped pool: it stays stopped, and the queue loses a
    path only to a worker that was about to claim. *)
Lemma stopped_pool_step (a : action) (p : pool face) :
  processing p.2 = false →
  processing (pool_step process_image_file a p).2 = false ∧
  length (processing_queue p.2) + claiming_count (pool_step process_image_file a p).1
  ≤ length (processing_queue (pool_step process_image_file a p).2) + claiming_count p.1.
Proof.
  destruct p as [ws self]. cbn [fst snd]. intros Hstop.
  destruct a as [i|]; cbn [pool_step fst snd]; [|split; [reflexivity | simpl; lia]].
  destruct (ws !! i) as [w|] eqn:Hi; [|split; [assumption | simpl; lia]].
  pose proof (claiming_count_insert ws i w) as Hins.
  destruct w as [| |x|]; cbn [worker_step].
  - rewrite Hstop. cbn [andb fst snd]. split; [assumption|].
    specialize (Hins finished Hi). simpl in Hins. lia.
  - destruct (processing_queue self) as [|x rest] eqn:Hq; cbn [fst snd].
    + split; [assumption|]. specialize (Hins finished Hi). simpl in Hins.
      rewrite Hq. simpl. lia.
    + split; [assumption|]. specialize (Hins (holding x) Hi). simpl in Hins.
      simpl. lia.
  - specialize (Hins at_loop_test Hi). simpl in Hins.
    destruct (process_image_file x); cbn [fst snd processing processing_queue];
      (split; [assumption | lia]).
  - cbn [fst snd]. rewrite list_insert_id by assumption. split; [assumption | lia].
Qed.

(** X19. [stop_processing] and the queue. Once the batch is stopped it
    stays stopped, and under every schedule the queue loses at most one
    path for each worker that had passed the loop condition and not yet
    claimed: a worker that evaluates the condition after the stop claims
    nothing more. *)
Theorem stop_bounds_later_claims (schedule : list action) (p : pool face) :
  processing p.2 = false →
  processing (run_pool process_image_file schedule p).2 = false ∧
  length (processing_queue p.2)
  ≤ length (processing_queue (run_pool process_image_file schedule p).2)
    + claiming_count p.1.
Proof.
  revert p. induction schedule as [|a schedule IH]; intros p Hstop.
  - split; [assumption | simpl; lia].
  - rewrite run_pool_cons.
    destruct (stopped_pool_step a p Hstop) as [Hstop' Hstep].
    destruct (IH _ Hstop') as [Hend Hrest]. split; [assumption | lia].
Qed.

(** A stopped pool whose workers are all at the loop condition or
    returned does nothing to the processor. *)
Lemma idle_stopped_pool (schedule : list action) (ws : list worker)
    (self : processor face) :
  processing self = false →
  Forall (λ w, w = at_loop_test ∨ w = finished) ws →
  (run_pool process_image_file schedule (ws, self)).2 = self.
Proof.
  revert ws. induction schedule as [|a schedule IH]; intros ws Hstop Hidle;
    [reflexivity|].
  rewrite run_pool_cons. destruct a as [i|]; cbn [pool_step fst snd].
  - destruct (ws !! i) as [w|] eqn:Hi; [|now apply IH].
    pose proof (Forall_lookup_1 _ _ _ _ Hidle Hi) as [->| ->]; cbn [worker_step].
    + rewrite Hstop. cbn [andb]. apply IH; [assumption|].
      apply Forall_insert; [assumption | now right].
    + apply IH; [assumption|]. apply Forall_insert; [assumption | now right].
  - replace (stop_processing self) with self; [now apply IH|].
    destruct self as [q r c t pr]. cbn in Hstop. subst pr. reflexivity.
Qed.

Variable MAX_CONCURRENT_IMAGES : nat.

(** X20. A batch stopped before any worker has evaluated the loop
    condition returns the empty mapping with nothing completed, and all
    its paths stay in the queue of the processor. *)
Theorem stopped_batch_leaves_its_paths_queued (self self' : processor face)
    (image_paths : list string) (schedule : list action)
    (m : gmap string (list face)) :
  process_dynamic_batch true MAX_CONCURRENT_IMAGES process_image_file
    self image_paths (stop :: schedule) = Some (inr m, self') →
  m = ∅ ∧
  completed_count self' = 0 ∧
  processing self' = false ∧
  processing_queue self' = processing_queue self ++ image_paths.
Proof.
  intros Hrun.
  destruct (accelerated_batch_run _ _ _ _ _ _ _ Hrun) as (k & ws & _ & Hpool & _ & ->).
  rewrite run_pool_cons in Hpool. cbn [pool_step fst snd] in Hpool.
  pose proof (idle_stopped_pool schedule (replicate (S k) at_loop_test)
                (stop_processing
                   {| processing_queue := processing_queue self ++ image_paths;
                      results := ∅; completed_count := 0;
                      total_count := length image_paths; processing := true |})
                eq_refl) as Hidle.
  rewrite Hpool in Hidle. cbn [snd] in Hidle. rewrite Hidle.
  - repeat split.
  - apply Forall_forall. intros w Hw. apply elem_of_replicate in Hw as [-> _]. now left.
Qed.

End Stop.

End StopFacts.

(** ** The scheduler on concrete batches *)

Module SchedulerScenarios.
Import DynamicBatch BatchFacts SchedulerFacts StopFacts.

(** Three paths, one of them twice, one of them unreadable. *)
Lemma sequential_batch_has_every_path_witness :
  ∃ m,
    process_dynamic_batch false 4 (fails_on "a.jpg" [7]) (__init__ (face:=nat))
      ["a.jpg"; "b.jpg"; "a.jpg"] [] = Some (inr m, __init__) ∧
    (∀ p, m !! p =
          if decide (p ∈ ["a.jpg"; "b.jpg"; "a.jpg"])
          then Some (match fails_on "a.jpg" [7] p with inr faces => faces | inl _ => [] end)
          else None) ∧
    size m = length (remove_dups ["a.jpg"; "b.jpg"; "a.jpg"]).
Proof.
  apply (sequential_batch_has_every_path false 4 (fails_on "a.jpg" [7]) __init__
           ["a.jpg"; "b.jpg"; "a.jpg"] []).
  reflexivity.
Defined.

(** The key "b.jpg" of a batch of two. *)
Lemma dynamic_results_are_genuine_witness :
  process_dynamic_batch true 4 (fails_on "a.jpg" [7]) (__init__ (face:=nat))
    ["a.jpg"; "b.jpg"] (solo_schedule 2 2)
  = Some (inr {["b.jpg" := [7]]},
          {| processing_queue := []; results := {["b.jpg" := [7]]};
             completed_count := 2; total_count := 2; processing := true |}) ∧
  fails_on "a.jpg" [7] "b.jpg" = inr [7] ∧
  "b.jpg" ∈ processing_queue (__init__ (face:=nat)) ++ ["a.jpg"; "b.jpg"].
Proof.
  split; [vm_compute; reflexivity|].
  apply (dynamic_results_are_genuine true 4 (fails_on "a.jpg" [7]) __init__
           {| processing_queue := []; results := {["b.jpg" := [7]]};
              completed_count := 2; total_count := 2; processing := true |}
           ["a.jpg"; "b.jpg"] (solo_schedule 2 2) {["b.jpg" := [7]]} "b.jpg" [7]).
  - reflexivity.
  - vm_compute. reflexivity.
  - reflexivity.
Defined.

(** A batch of two on a processor whose queue still holds "c.jpg". *)
Lemma unstopped_batch_drains_the_queue_witness :
  process_dynamic_batch true 4 (fails_on "a.jpg" [7])
    {| processing_queue := ["c.jpg"]; results := ∅; completed_count := 0;
       total_count := 1; processing := false |}
    ["a.jpg"; "b.jpg"] (solo_schedule 3 2)
  = Some (inr {["b.jpg" := [7]; "c.jpg" := [7]]},
          {| processing_queue := []; results := {["b.jpg" := [7]; "c.jpg" := [7]]};
             completed_count := 3; total_count := 2; processing := true |}) ∧
  2 = length ["a.jpg"; "b.jpg"] ∧
  @nil string = [] ∧
  ∀ p, ({["b.jpg" := [7]; "c.jpg" := [7]]} : gmap string (list nat)) !! p =
       if decide (p ∈ ["c.jpg"] ++ ["a.jpg"; "b.jpg"])
       then match fails_on "a.jpg" [7] p with
            | inr faces => Some faces
            | inl _ => None
            end
       else None.
Proof.
  split; [vm_compute; reflexivity|].
  apply (unstopped_batch_drains_the_queue true 4 (fails_on "a.jpg" [7])
           {| processing_queue := ["c.jpg"]; results := ∅; completed_count := 0;
              total_count := 1; processing := false |}
           {| processing_queue := []; results := {["b.jpg" := [7]; "c.jpg" := [7]]};
              completed_count := 3; total_count := 2; processing := true |}
           ["a.jpg"; "b.jpg"] (solo_schedule 3 2)).
  - reflexivity.
  - apply solo_schedule_has_no_stop.
  - vm_compute. reflexivity.
Defined.

(** A stopped pool of two workers, one of them about to claim. *)
Lemma stop_bounds_later_claims_witness :
  processing
    (run_pool (fails_on "a.jpg" [7]) [run 0; run 1; run 0; run 0; run 1]
       ([at_get_nowait; at_loop_test],
        {| processing_queue := ["a.jpg"; "b.jpg"]; results := ∅; completed_count := 0;
           total_count := 2; processing := false |})).2 = false ∧
  2 ≤ length
        (processing_queue
           (run_pool (fails_on "a.jpg" [7]) [run 0; run 1; run 0; run 0; run 1]
              ([at_get_nowait; at_loop_test],
               {| processing_queue := ["a.jpg"; "b.jpg"]; results := ∅;
                  completed_count := 0; total_count := 2; processing := false |})).2)
      + 1.
Proof.
  apply (stop_bounds_later_claims (fails_on "a.jpg" [7])
           [run 0; run 1; run 0; run 0; run 1]
           ([at_get_nowait; at_loop_test],
            {| processing_queue := ["a.jpg"; "b.jpg"]; results := ∅; completed_count := 0;
               total_count := 2; processing := false |})).
  reflexivity.
Defined.

(** A batch of two, stopped before its two workers start. *)
Lemma stopped_batch_leaves_its_paths_queued_witness :
  process_dynamic_batch true 4 (fails_on "a.jpg" [7]) (__init__ (face:=nat))
    ["a.jpg"; "b.jpg"] [stop; run 0; run 1]
  = Some (inr ∅,
          {| processing_queue := ["a.jpg"; "b.jpg"]; results := ∅; completed_count := 0;
             total_count := 2; processing := false |}) ∧
  (∅ : gmap string (list nat)) = ∅ ∧
  0 = 0 ∧
  false = false ∧
  ["a.jpg"; "b.jpg"] = processing_queue (__init__ (face:=nat)) ++ ["a.jpg"; "b.jpg"].
Proof.
  split; [vm_compute; reflexivity|].
  apply (stopped_batch_leaves_its_paths_queued (fails_on "a.jpg" [7]) 4 __init__
           {| processing_queue := ["a.jpg"; "b.jpg"]; results := ∅; completed_count := 0;
              total_count := 2; processing := false |}
           ["a.jpg"; "b.jpg"] [run 0; run 1] ∅).
  vm_compute. reflexivity.
Defined.

(** A batch of two with four workers allowed. *)
Lemma accelerated_batch_returns_the_successes_witness :
  ∃ m self',
    process_dynamic_batch true 4 (fails_on "a.jpg" [7]) (__init__ (face:=nat))
      ["a.jpg"; "b.jpg"]
      (solo_schedule (length ["a.jpg"; "b.jpg"])
         (Nat.min (Nat.min 4 (length ["a.jpg"; "b.jpg"])) 16))
    = Some (inr m, self') ∧
    ∀ p, m !! p =
         if decide (p ∈ ["a.jpg"; "b.jpg"])
         then match fails_on "a.jpg" [7] p with
              | inr faces => Some faces
              | inl _ => None
              end
         else None.
Proof.
  apply (accelerated_batch_returns_the_successes true 4 (fails_on "a.jpg" [7]) __init__
           ["a.jpg"; "b.jpg"]).
  - reflexivity.
  - reflexivity.
  - discriminate.
  - discriminate.
Defined.

End SchedulerScenarios.

(** ** The environment of the runner *)

Module EnvironmentFacts.
Import App RunWithGpu ServiceFacts.

Lemma str_contains_app_r (needle a b : string) :
  str_contains needle b = true → str_contains needle (a +:+ b) = true.
Proof.
  intros Hb. induction a as [|c a IH]; [exact Hb|].
  simpl. rewrite IH. apply orb_true_r.
Qed.

Lemma append_empty_r (s : string) : s +:+ EmptyString = s.
Proof.
  induction s as [|c s IH]; [reflexivity|].
  change (String c (s +:+ EmptyString) = String c s). now rewrite IH.
Qed.

(** A variable that is not assigned keeps its value. *)
Lemma assign_all_other (settings : list (string * string))
    (environ : gmap string string) (k : string) :
  k ∉ settings.*1 → assign_all settings environ !! k = environ !! k.
Proof.
  revert environ. induction settings as [|[k' v'] settings IH]; intros environ Hk;
    [reflexivity|].
  cbn [fmap list_fmap fst] in Hk. apply not_elem_of_cons in Hk as [Hne Hk].
  cbn [assign_all fold_left]. change (fold_left _ settings ?e) with (assign_all settings e).
  rewrite IH by assumption. cbn [fst snd]. now apply lookup_insert_ne.
Qed.

(** The assignments on top of any environment. *)
Lemma assign_all_union (settings : list (string * string))
    (environ : gmap string string) :
  assign_all settings environ = assign_all settings ∅ ∪ environ.
Proof.
  revert environ. induction settings as [|[k v] settings IH]; intros environ.
  - cbn. now rewrite (left_id_L ∅ (∪)).
  - cbn [assign_all fold_left fst snd].
    change (fold_left _ settings ?e) with (assign_all settings e).
    rewrite (IH (<[k := v]> environ)), (IH (<[k := v]> ∅)).
    rewrite (insert_union_singleton_l environ), insert_empty.
    now rewrite (assoc_L (∪)).
Qed.

Lemma assign_all_twice (environ : gmap string string) :
  assign_all gpu_settings (assign_all gpu_settings environ) =
  assign_all gpu_settings environ.
Proof.
  rewrite (assign_all_union _ (assign_all _ _)), (assign_all_union _ environ).
  now rewrite (assoc_L (∪)), (idemp_L (∪)).
Qed.

Lemma path_is_not_assigned : "PATH" ∉ gpu_settings.*1.
Proof.
  cbn. intros Hin.
  repeat (apply elem_of_cons in Hin as [Hin|Hin]; [discriminate Hin|]).
  inversion Hin.
Qed.

Lemma assign_all_insert_path (v : string) (environ : gmap string string) :
  assign_all gpu_settings (<["PATH" := v]> environ) =
  <["PATH" := v]> (assign_all gpu_settings environ).
Proof.
  rewrite (assign_all_union _ (<[_ := _]> _)), (assign_all_union _ environ).
  symmetry. apply insert_union_r.
  rewrite assign_all_other by apply path_is_not_assigned. apply lookup_empty.
Qed.

(** X21. [setup_environment] is idempotent: run again on the environment
    it has set up, it changes nothing; the cuDNN directory is not added to
    PATH a second time. *)
Theorem setup_environment_idempotent (os_path_exists : string → bool)
    (environ : gmap string string) :
  setup_environment os_path_exists (setup_environment os_path_exists environ) =
  setup_environment os_path_exists environ.
Proof.
  unfold setup_environment.
  destruct (os_path_exists cudnn_path); [|apply assign_all_twice].
  pose proof (assign_all_twice environ) as Htwice.
  set (E := assign_all gpu_settings environ) in *.
  destruct (str_contains cudnn_path (default EmptyString (E !! "PATH"))) eqn:Hin;
    cbn [negb].
  - now rewrite Htwice, Hin.
  - rewrite assign_all_insert_path, Htwice, lookup_insert_eq.
    change (default EmptyString (Some ?x)) with x.
    rewrite str_contains_app_r by apply (str_contains_suffix cudnn_path ";").
    reflexivity.
Qed.

(** X22. What [setup_environment] touches. Afterwards each of the
    twelve settings has its value; a variable that is neither a setting nor
    PATH is as before; PATH is its old value with at most a suffix added;
    and if the cuDNN directory exists, PATH contains it. *)
Theorem setup_environment_frame (os_path_exists : string → bool)
    (environ : gmap string string) :
  (∀ k v, (k, v) ∈ gpu_settings →
          setup_environment os_path_exists environ !! k = Some v) ∧
  (∀ k, k ≠ "PATH" → k ∉ gpu_settings.*1 →
        setup_environment os_path_exists environ !! k = environ !! k) ∧
  (∃ suffix,
     default EmptyString (setup_environment os_path_exists environ !! "PATH") =
     default EmptyString (environ !! "PATH") +:+ suffix) ∧
  (os_path_exists cudnn_path = true →
   str_contains cudnn_path
     (default EmptyString (setup_environment os_path_exists environ !! "PATH")) = true).
Proof.
  assert (Hpath : assign_all gpu_settings environ !! "PATH" = environ !! "PATH")
    by apply assign_all_other, path_is_not_assigned.
  assert (Hset : ∀ k v, (k, v) ∈ gpu_settings →
                        k ≠ "PATH" ∧ assign_all gpu_settings environ !! k = Some v).
  { intros k v Hin. rewrite assign_all_union.
    repeat (apply elem_of_cons in Hin as [Hin|Hin];
            [injection Hin as -> ->; split; [discriminate|];
             apply lookup_union_Some_l; vm_compute; reflexivity|]).
    inversion Hin. }
  unfold setup_environment. rewrite Hpath.
  destruct (os_path_exists cudnn_path).
  2: { split; [intros k v Hin; now apply Hset|].
       split; [intros k _ Hk; now apply assign_all_other|].
       split; [|discriminate].
       exists EmptyString. now rewrite Hpath, append_empty_r. }
  destruct (str_contains cudnn_path (default EmptyString (environ !! "PATH"))) eqn:Hin;
    cbn [negb].
  - split; [intros k v Hk; now apply Hset|].
    split; [intros k _ Hk; now apply assign_all_other|].
    rewrite Hpath. split; [|intros _; exact Hin].
    exists EmptyString. now rewrite append_empty_r.
  - split.
    { intros k v Hk. destruct (Hset k v Hk) as [Hne Hv].
      now rewrite lookup_insert_ne by congruence. }
    split.
    { intros k Hne Hk. rewrite lookup_insert_ne by congruence.
      now apply assign_all_other. }
    rewrite lookup_insert_eq. change (default EmptyString (Some ?x)) with x.
    split; [eauto|].
    intros _. apply str_contains_app_r, (str_contains_suffix cudnn_path ";").
Qed.

End EnvironmentFacts.
